(** * simljp: a Lennard-Jones molecular-dynamics kernel (src/main.cpp)

    Shallow embedding of the numerical core of [main.cpp] and the
    properties of its specification.

    Conventions of the embedding.
    - A C++ [double] is a real number of [R]: every statement below is
      about the program in exact arithmetic.  Rounding, overflow, NaN and
      infinities are outside the model; in particular [/ 0] is [0] in [R]
      while it is [inf] in IEEE arithmetic, so the statements about forces
      are made for separations [r > 0].
    - An Eigen [MatrixXd] with three rows is the list of its columns, a
      column being a [vec3]; [m.cols()] is [length m].  Reading a column
      that does not exist (undefined behaviour in Eigen) reads [vzero], and
      writing one leaves the matrix as it is.
    - Loop indices over columns are naturals; the lattice counters [px],
      [py], [pz] of [init_grid] are integers of [Z] (no counter of the
      program comes near [2^31] for a matrix that fits in memory).
    - Console and file output is a trace of [event]s, in program order. *)

From Stdlib Require Import String Reals Lra Lia ZArith Bool List.
Import ListNotations.

Open Scope R_scope.

(** ** Compile-time constants ([#define]s of main.cpp) *)

Definition SIGMA : R := 1 / 10.          (* 1.0e-1 *)
Definition EPSILON : R := 1.             (* 1.0 *)
Definition TOTAL_PARTICLE : nat := 64.
Definition TIMESTEP : R := 1 / 1000000.  (* 1e-6 *)
Definition TOTAL_TIMESTEPS : R := 1000000. (* 1e6 *)

(** ** Vectors and matrices *)

Record vec3 : Type := mkVec { vx : R; vy : R; vz : R }.

Definition MatrixXd : Type := list vec3.

Definition vzero : vec3 := mkVec 0 0 0.

Definition vadd (a b : vec3) : vec3 :=
  mkVec (vx a + vx b) (vy a + vy b) (vz a + vz b).

Definition vsub (a b : vec3) : vec3 :=
  mkVec (vx a - vx b) (vy a - vy b) (vz a - vz b).

Definition vscale (k : R) (a : vec3) : vec3 :=
  mkVec (k * vx a) (k * vy a) (k * vz a).

Definition vneg (a : vec3) : vec3 := mkVec (- vx a) (- vy a) (- vz a).

(** [v.norm()] *)
Definition norm (a : vec3) : R :=
  sqrt (vx a * vx a + vy a * vy a + vz a * vz a).

(** [m.col(i)] as an rvalue. *)
Definition col (m : MatrixXd) (i : nat) : vec3 := nth i m vzero.

(** [m.col(i) = v]. *)
Fixpoint set_col (i : nat) (v : vec3) (m : MatrixXd) : MatrixXd :=
  match m, i with
  | [], _ => []
  | _ :: m', O => v :: m'
  | c :: m', S i' => c :: set_col i' v m'
  end.

(** [m.block(0, start, 3, ncols)]: [ncols] columns from column [start]. *)
Definition block (m : MatrixXd) (start ncols : nat) : MatrixXd :=
  firstn ncols (skipn start m).

(** [m.rowwise().sum()]: the sum of the columns; the zero vector for a
    matrix without columns. *)
Definition rowwise_sum (m : MatrixXd) : vec3 := fold_left vadd m vzero.

(** Coefficient-wise matrix operations used by [simulate]. *)
Fixpoint madd (a b : MatrixXd) : MatrixXd :=
  match a, b with
  | x :: a', y :: b' => vadd x y :: madd a' b'
  | _, _ => []
  end.

Definition mscale (k : R) (a : MatrixXd) : MatrixXd := map (vscale k) a.

(** [for (int i = 0; i < n; i++) body], threading the state. *)
Definition for_loop {S : Type} (n : nat) (body : nat -> S -> S) (s : S) : S :=
  fold_left (fun st i => body i st) (seq 0 n) s.

(** ** The force engine *)

(** [calc_lenjon_force(vp, mp, mpo)]: the result is the new value of [mpo],
    which the assignment resizes to the shape of [mp]. *)
Definition calc_lenjon_force (vp : vec3) (mp : MatrixXd) : MatrixXd :=
  (* rp = mp - vp.replicate(1, mp.cols()) *)
  let rp := map (fun c => vsub c vp) mp in
  (* rpn0 = rp.colwise().norm().cwiseInverse() *)
  let rpn0 := map (fun c => / norm c) rp in
  (* rpn1 = rpn0 * SIGMA *)
  let rpn1 := map (fun q => q * SIGMA) rpn0 in
  (* rpn1 = 24*EPSILON*(2*rpn1.array().pow(7.0) - rpn1.array().pow(13.0)) *)
  let rpn1' := map (fun q => 24 * EPSILON * (2 * q ^ 7 - q ^ 13)) rpn1 in
  (* mpo = rp.array().rowwise() * rpn1.cwiseProduct(rpn0).transpose().array() *)
  map (fun ck => vscale (snd ck) (fst ck))
      (combine rp (map (fun ab => fst ab * snd ab) (combine rpn1' rpn0))).

(** [calc_accel(mp, ma)]: the result is the new value of [ma]. *)
Definition calc_accel (mp ma : MatrixXd) : MatrixXd :=
  let co := length mp in
  for_loop co
    (fun pi ma =>
       let vp := col mp pi in
       let mpo := calc_lenjon_force vp (block mp (pi + 1) (co - pi - 1)) in
       set_col pi (rowwise_sum mpo) ma)
    ma.

(** The contribution that the code adds to the particle at [p] for a partner
    at [q]: one column of [calc_lenjon_force p [... q ...]]. *)
Definition pair_force (p q : vec3) : vec3 :=
  let rp := vsub q p in
  let rpn0 := / norm rp in
  let s := rpn0 * SIGMA in
  vscale (24 * EPSILON * (2 * s ^ 7 - s ^ 13) * rpn0) rp.

(** ** Comparisons and libm functions on [double] *)

Definition Rltb (a b : R) : bool := if Rlt_dec a b then true else false.
Definition Rgtb (a b : R) : bool := if Rgt_dec a b then true else false.
Definition Reqb (a b : R) : bool := if Req_dec_T a b then true else false.

(** [cbrt(x)] of libm, in exact arithmetic: the real cube root.  The
    function of libm returns this number rounded; it returns it exactly at
    1, 8 and 64, the counts at which the statements on [init_grid],
    [simulate] and [main] below evaluate it.  The statements for arbitrary
    counts are made on [init_grid_from], which takes the value that the call
    returned as a parameter, or for counts that are no cubes. *)
Definition cbrt (x : R) : R :=
  if Rlt_dec 0 x then Rpower x (/ 3)
  else if Rlt_dec x 0 then - Rpower (- x) (/ 3)
  else 0.

(** The greatest [int]. *)
Definition INT_MAX : R := 2147483647.

(** [(int)x]: conversion of a [double] to [int] truncates toward zero. *)
Definition trunc (x : R) : Z :=
  if Rle_dec 0 x then Int_part x else (- Int_part (- x))%Z.

(** [fmod(x, 1)]: what is left of [x] after its truncated integer part. *)
Definition fmod1 (x : R) : R := x - IZR (trunc x).

(** The least integer that is not below [x]: the number of [int] values
    [ts = 0, 1, ...] with [ts < x] is [Z.to_nat (ceil x)]. *)
Definition ceil (x : R) : Z := (- Int_part (- x))%Z.

(** ** Output *)

Inductive event : Type :=
| EPrint (line : string)        (* cout << line << endl *)
| EMkdir (path : string)        (* mkdir(path, mode) *)
| EWrite (path : string) (count : nat) (rows : MatrixXd).
    (* the file path/mds-count.csv, holding mp.transpose() in CSV format:
       one row per particle, that is the list of the columns of mp *)

Definition wrong_size : string := "Error: Wrong size of particles."%string.

(** ** The boundary handler *)

(** [m(row, pi)] as an rvalue. *)
Definition coef (m : MatrixXd) (row pi : nat) : R :=
  match row with
  | O => vx (col m pi)
  | S O => vy (col m pi)
  | S (S O) => vz (col m pi)
  | _ => 0
  end.

(** [m(row, pi) *= k]. *)
Definition scale_coef (row pi : nat) (k : R) (m : MatrixXd) : MatrixXd :=
  let c := col m pi in
  match row with
  | O => set_col pi (mkVec (vx c * k) (vy c) (vz c)) m
  | S O => set_col pi (mkVec (vx c) (vy c * k) (vz c)) m
  | S (S O) => set_col pi (mkVec (vx c) (vy c) (vz c * k)) m
  | _ => m
  end.

(** [border_handling(mp, mv, closed, left, right, top, bottom, front, back)]:
    the result is the new value of [(mp, mv)]. *)
Definition border_handling (mp mv : MatrixXd) (closed : bool)
    (left right top bottom front back : R) : MatrixXd * MatrixXd :=
  if closed then
    (mp,
     for_loop (length mp)
       (fun pi mv =>
          let mv :=
            if Rgtb (coef mp 0 pi) right || Rltb (coef mp 0 pi) left
            then scale_coef 0 pi (-1) mv else mv in
          let mv :=
            if Rgtb (coef mp 1 pi) top || Rltb (coef mp 1 pi) bottom
            then scale_coef 1 pi (-1) mv else mv in
          let mv :=
            if Rgtb (coef mp 2 pi) back || Rltb (coef mp 2 pi) front
            then scale_coef 2 pi (-1) mv else mv in
          mv)
       mv)
  else (mp, mv).

(** ** Initialisation *)

(** [init_velocities(mv)].  [draws k] is the [k]-th value that
    [dist(generator)] returns, for the default-seeded engine and the normal
    distribution of mean 0 and deviation 2. *)
Definition init_velocities (draws : nat -> R) (mv : MatrixXd) : MatrixXd :=
  fst (for_loop (length mv)
         (fun pi st =>
            let '(mv, k) := st in
            (set_col pi (mkVec (draws k) (draws (k + 1)%nat) (draws (k + 2)%nat))
               mv,
             (k + 3)%nat))
         (mv, O)).

(** The counters of the lattice loop. *)
Record lattice : Type := mkLattice { px : Z; py : Z; pz : Z }.

(** One turn of the loop of [init_grid], for [side = (int)po]. *)
Definition grid_body (side : Z) (pi : nat) (st : MatrixXd * lattice)
    : MatrixXd * lattice :=
  let '(mp, mkLattice px py pz) := st in
  let mp := set_col pi (mkVec (IZR px) (IZR py) (IZR pz)) mp in
  let px := (px + 1)%Z in
  let '(px, py) :=
    if (Z.rem px side =? 0)%Z then (0%Z, (py + 1)%Z) else (px, py) in
  let '(py, pz) :=
    if negb (py =? 0)%Z && (Z.rem py side =? 0)%Z
    then (0%Z, (pz + 1)%Z) else (py, pz) in
  (mp, mkLattice px py pz).

(** [init_grid(mp)] with the value [po] that its call [cbrt(co)] returned
    taken as a parameter: the lines printed and the new value of [mp]. *)
Definition init_grid_from (po : R) (mp : MatrixXd) : list event * MatrixXd :=
  let co := length mp in
  let out := if Reqb (fmod1 po) 0 then [] else [EPrint wrong_size] in
  (out, fst (for_loop co (grid_body (trunc po)) (mp, mkLattice 0 0 0))).

(** [init_grid(mp)]: the lines printed and the new value of [mp]. *)
Definition init_grid (mp : MatrixXd) : list event * MatrixXd :=
  let co := length mp in
  let po := cbrt (INR co) in
  let out := if Reqb (fmod1 po) 0 then [] else [EPrint wrong_size] in
  (out, fst (for_loop co (grid_body (trunc po)) (mp, mkLattice 0 0 0))).

(** ** The integrator *)

(** [init_serialize()]: [tbuf] is the local time as [strftime] prints it. *)
Definition init_serialize (tbuf : string) : list event * string :=
  let path := ("mds-" ++ tbuf ++ "/")%string in
  ([EMkdir path], path).

(** [write(mp, mv, ma, path, count)] *)
Definition write (mp mv ma : MatrixXd) (path : string) (count : nat)
    : list event :=
  [EWrite path count mp].

(** The state that [simulate] threads through its loop. *)
Record system : Type := mkSystem {
  sys_mp : MatrixXd;
  sys_mv : MatrixXd;
  sys_ma : MatrixXd;
  sys_out : list event
}.

(** One turn of the main timestep loop of [simulate]. *)
Definition verlet_step (td po : R) (serialize : bool) (path : string)
    (ts : nat) (s : system) : system :=
  let '(mkSystem mp mv ma out) := s in
  (* mp = mp + mv*td + 0.5*ma*pow(td, 2) *)
  let mp := madd (madd mp (mscale td mv)) (mscale (td ^ 2) (mscale (1 / 2) ma)) in
  (* MatrixXd mal = ma *)
  let mal := ma in
  (* calc_accel(mp, ma) *)
  let ma := calc_accel mp ma in
  (* ma += mal *)
  let ma := madd ma mal in
  (* mv += 0.5*ma*td *)
  let mv := madd mv (mscale td (mscale (1 / 2) ma)) in
  let '(mp, mv) := border_handling mp mv true 0 po 0 po 0 po in
  let out := if serialize then (out ++ write mp mv ma path ts)%list else out in
  mkSystem mp mv ma out.

(** [simulate(mp, mv, ma, td, tts, serialize)]: the final matrices and the
    whole output.  The counter [ts] of the loop is an [int]: the model is
    that of the code for [tts <= INT_MAX], beyond which the counter of the
    code overflows. *)
Definition simulate (mp mv ma : MatrixXd) (td tts : R) (serialize : bool)
    (tbuf : string) : system :=
  let '(out, path) :=
    if serialize then init_serialize tbuf else ([], EmptyString) in
  let po := cbrt (INR (length mp)) in
  let out :=
    if Reqb (fmod1 po) 0 then out else (out ++ [EPrint wrong_size])%list in
  let ma := calc_accel mp ma in
  for_loop (Z.to_nat (ceil tts)) (verlet_step td po serialize path)
    (mkSystem mp mv ma out).

(** [info()] *)
Definition info : list event :=
  [EPrint "Molecular Dynamic Simulation (Ver. 1.0)"%string;
   EPrint "by Christian Krippendorf <Coding@Christian-Krippendorf.de>"%string].

(** [MatrixXd m(3, pn)]: [pn] columns whose content C++ does not determine;
    [junk i] is what column [i] happens to hold. *)
Definition uninitialized (junk : nat -> vec3) (pn : nat) : MatrixXd :=
  map junk (seq 0 pn).

(** The body of [main] for [pn] particles, timestep [td] and [tts] steps. *)
Definition run (pn : nat) (td tts : R) (junk_p junk_v junk_a : nat -> vec3)
    (draws : nat -> R) (tbuf : string) : system :=
  let mp := uninitialized junk_p pn in
  let mv := uninitialized junk_v pn in
  let ma := uninitialized junk_a pn in
  let '(out, mp) := init_grid mp in
  let mv := init_velocities draws mv in
  let s := simulate mp mv ma td tts true tbuf in
  mkSystem (sys_mp s) (sys_mv s) (sys_ma s) (info ++ out ++ sys_out s)%list.

Definition main : (nat -> vec3) -> (nat -> vec3) -> (nat -> vec3) ->
    (nat -> R) -> string -> system :=
  run TOTAL_PARTICLE TIMESTEP TOTAL_TIMESTEPS.

(** ** Notions of the specification *)

(** The equilibrium separation of the 12-6 potential, [sigma * 2^(1/6)]. *)
Definition r_eq : R := SIGMA * Rpower 2 (/ 6).

(** The magnitude that the specification gives for the pairwise force at
    separation [r]: [24 eps (2 (sigma/r)^13 - (sigma/r)^7)]. *)
Definition spec_force_magnitude (r : R) : R :=
  24 * EPSILON * (2 * (SIGMA / r) ^ 13 - (SIGMA / r) ^ 7).

(** The factor that the code puts on the unit separation vector at
    separation [r]: [24 eps (2 (sigma/r)^7 - (sigma/r)^13)]. *)
Definition code_force_factor (r : R) : R :=
  24 * EPSILON * (2 * (SIGMA / r) ^ 7 - (SIGMA / r) ^ 13).

(** What [calc_accel] stores for particle [pi]: the sum of the code's pair
    contributions over the partners of greater index. *)
Definition accel_of (mp : MatrixXd) (pi : nat) : vec3 :=
  rowwise_sum (map (pair_force (col mp pi)) (skipn (S pi) mp)).

(** Every position shifted by the vector [t]. *)
Definition translate (t : vec3) (mp : MatrixXd) : MatrixXd :=
  map (fun p => vadd p t) mp.

(** [N] is the cube of a natural number. *)
Definition perfect_cube (n : nat) : Prop := exists k : nat, n = (k * k * k)%nat.

(** The bounds of the box for the row [0], [1] or [2] of the matrices, in
    the order of the parameters of [border_handling]. *)
Definition low_of (row : nat) (left bottom front : R) : R :=
  match row with O => left | S O => bottom | _ => front end.

Definition high_of (row : nat) (right top back : R) : R :=
  match row with O => right | S O => top | _ => back end.

(** The coordinate on [row] of particle [pi] lies outside [[lo, hi]]. *)
Definition outside (mp : MatrixXd) (row pi : nat) (lo hi : R) : Prop :=
  coef mp row pi > hi \/ coef mp row pi < lo.

(** What the loop of [border_handling] leaves in column [pi] of [mv], from
    the old column [v]: each component negated when the coordinate of the
    particle on that row is outside the box. *)
Definition reflect (mp : MatrixXd) (left right top bottom front back : R)
    (pi : nat) (v : vec3) : vec3 :=
  mkVec
    (if Rgtb (coef mp 0 pi) right || Rltb (coef mp 0 pi) left
     then vx v * -1 else vx v)
    (if Rgtb (coef mp 1 pi) top || Rltb (coef mp 1 pi) bottom
     then vy v * -1 else vy v)
    (if Rgtb (coef mp 2 pi) back || Rltb (coef mp 2 pi) front
     then vz v * -1 else vz v).

(** The lattice of the unit cube, x fastest, then y, then z. *)
Definition unit_cube : MatrixXd :=
  [mkVec 0 0 0; mkVec 1 0 0; mkVec 0 1 0; mkVec 1 1 0;
   mkVec 0 0 1; mkVec 1 0 1; mkVec 0 1 1; mkVec 1 1 1].

(** The lattice point of index [i] on a lattice of side [s]: the three
    digits of [i] in base [s], the last one unbounded. *)
Definition lattice_point (s : Z) (i : nat) : vec3 :=
  let n := Z.of_nat i in
  mkVec (IZR (n mod s)) (IZR ((n / s) mod s)) (IZR (n / (s * s))).

(** * Properties *)

Lemma calc_lenjon_force_map (vp : vec3) (mp : MatrixXd) :
  calc_lenjon_force vp mp = map (pair_force vp) mp.
Proof.
  unfold calc_lenjon_force.
  induction mp as [|c mp IH]; simpl; [reflexivity|].
  f_equal. exact IH.
Qed.

(** ** Lists as matrices *)

Lemma for_loop_S {S : Type} (n : nat) (body : nat -> S -> S) (s : S) :
  for_loop (Datatypes.S n) body s = body n (for_loop n body s).
Proof.
  unfold for_loop. rewrite seq_S, fold_left_app. reflexivity.
Qed.

Lemma for_loop_ext {S : Type} (n : nat) (f g : nat -> S -> S) (s : S) :
  (forall i st, (i < n)%nat -> f i st = g i st) ->
  for_loop n f s = for_loop n g s.
Proof.
  induction n as [|n IH]; intros H; [reflexivity|].
  rewrite !for_loop_S, IH by (intros; apply H; lia).
  apply H. lia.
Qed.

Lemma length_set_col (i : nat) (v : vec3) (m : MatrixXd) :
  length (set_col i v m) = length m.
Proof.
  revert i; induction m as [|c m IH]; intros [|i]; simpl; auto.
Qed.

Lemma col_set_col_eq (i : nat) (v : vec3) (m : MatrixXd) :
  (i < length m)%nat -> col (set_col i v m) i = v.
Proof.
  unfold col. revert i; induction m as [|c m IH]; intros [|i] H; simpl in *;
    try lia; auto.
  apply IH. lia.
Qed.

Lemma col_set_col_neq (i j : nat) (v : vec3) (m : MatrixXd) :
  i <> j -> col (set_col i v m) j = col m j.
Proof.
  unfold col. revert i j; induction m as [|c m IH]; intros [|i] [|j] H; simpl;
    auto; try congruence.
Qed.

Lemma set_col_out_of_range (i : nat) (v : vec3) (m : MatrixXd) :
  (length m <= i)%nat -> set_col i v m = m.
Proof.
  revert i; induction m as [|c m IH]; intros [|i] H; simpl in *; auto; try lia.
  f_equal. apply IH. lia.
Qed.

Lemma col_out_of_range (m : MatrixXd) (i : nat) :
  (length m <= i)%nat -> col m i = vzero.
Proof. intros H. unfold col. apply nth_overflow. exact H. Qed.

(** A loop that rewrites column [pi] from the old column [pi] alone. *)
Lemma columnwise_loop (g : nat -> vec3 -> vec3) (n : nat) (m : MatrixXd) :
  let r := for_loop n (fun pi m => set_col pi (g pi (col m pi)) m) m in
  length r = length m /\
  forall i, col r i =
            if (i <? n)%nat && (i <? length m)%nat then g i (col m i)
            else col m i.
Proof.
  induction n as [|n [IHl IHc]]; simpl.
  - split; [reflexivity|]. intros i. reflexivity.
  - rewrite for_loop_S. split.
    + rewrite length_set_col. exact IHl.
    + intros i. destruct (Nat.eq_dec i n) as [->|Hne].
      * rewrite IHc.
        replace (n <? n)%nat with false by (symmetry; apply Nat.ltb_ge; lia).
        replace (n <? Datatypes.S n)%nat with true
          by (symmetry; apply Nat.ltb_lt; lia).
        simpl. destruct (n <? length m)%nat eqn:Hlt.
        -- apply col_set_col_eq. rewrite IHl. apply Nat.ltb_lt. exact Hlt.
        -- rewrite set_col_out_of_range
             by (rewrite IHl; apply Nat.ltb_ge; exact Hlt).
           rewrite IHc.
           replace (n <? n)%nat with false
             by (symmetry; apply Nat.ltb_ge; lia).
           reflexivity.
      * rewrite col_set_col_neq by congruence. rewrite IHc.
        replace (i <? Datatypes.S n)%nat with (i <? n)%nat; [reflexivity|].
        destruct (i <? n)%nat eqn:E; symmetry.
        -- apply Nat.ltb_lt. apply Nat.ltb_lt in E. lia.
        -- apply Nat.ltb_ge. apply Nat.ltb_ge in E. lia.
Qed.

Lemma block_tail (m : MatrixXd) (pi : nat) :
  block m (pi + 1) (length m - pi - 1) = skipn (S pi) m.
Proof.
  unfold block. replace (pi + 1)%nat with (S pi) by lia.
  apply firstn_all2. rewrite length_skipn. lia.
Qed.

(** ** The force engine, column by column *)

Lemma calc_accel_cols (mp ma : MatrixXd) :
  length (calc_accel mp ma) = length ma /\
  forall i, col (calc_accel mp ma) i =
            if (i <? length mp)%nat && (i <? length ma)%nat
            then accel_of mp i else col ma i.
Proof.
  unfold calc_accel.
  pose proof (columnwise_loop (fun pi _ => accel_of mp pi) (length mp) ma)
    as [Hl Hc].
  cbv zeta in *.
  erewrite for_loop_ext.
  - split; [exact Hl | exact Hc].
  - intros i st _. cbv beta. unfold accel_of.
    rewrite block_tail, calc_lenjon_force_map. reflexivity.
Qed.

Lemma pair_force_translate (t p q : vec3) :
  pair_force (vadd p t) (vadd q t) = pair_force p q.
Proof.
  unfold pair_force.
  replace (vsub (vadd q t) (vadd p t)) with (vsub q p); [reflexivity|].
  unfold vsub, vadd; simpl. f_equal; ring.
Qed.

Lemma accel_of_translate (t : vec3) (mp : MatrixXd) (i : nat) :
  (i < length mp)%nat -> accel_of (translate t mp) i = accel_of mp i.
Proof.
  intros Hi. unfold accel_of, translate.
  rewrite skipn_map, map_map.
  unfold col. rewrite (nth_indep _ vzero (vadd vzero t))
    by (rewrite length_map; exact Hi).
  rewrite (map_nth (fun p => vadd p t)).
  f_equal. apply map_ext. intros q. apply pair_force_translate.
Qed.

Lemma matrix_ext (a b : MatrixXd) :
  length a = length b -> (forall i, col a i = col b i) -> a = b.
Proof.
  intros Hl Hc. apply (nth_ext a b vzero vzero Hl). intros i _. apply Hc.
Qed.

(** ** Properties of the accumulation of forces *)

(** C9. Translation invariance of the force engine: the accelerations
    computed on positions all shifted by the same vector [t] are those
    computed on the original positions (in exact arithmetic). *)
Theorem calc_accel_translation_invariant (t : vec3) (mp ma : MatrixXd) :
  calc_accel (translate t mp) ma = calc_accel mp ma.
Proof.
  destruct (calc_accel_cols (translate t mp) ma) as [Hl1 Hc1].
  destruct (calc_accel_cols mp ma) as [Hl2 Hc2].
  apply matrix_ext; [congruence|].
  intros i. rewrite Hc1, Hc2. unfold translate at 1. rewrite length_map.
  destruct (i <? length mp)%nat eqn:Hi; simpl; [|reflexivity].
  destruct (i <? length ma)%nat; [|reflexivity].
  apply accel_of_translate. apply Nat.ltb_lt. exact Hi.
Qed.

(** C10. For a position matrix of [N >= 1] particles (and an acceleration
    matrix of the same shape), [calc_accel] sums the acceleration of every
    particle over the partners of strictly greater index only, and the
    particle of highest index, which has no such partner, gets the zero
    vector whatever the configuration. *)
Theorem calc_accel_last_particle_zero (mp ma : MatrixXd) :
  (1 <= length mp)%nat ->
  length ma = length mp ->
  (forall i, (i < length mp)%nat ->
     col (calc_accel mp ma) i =
     rowwise_sum (map (pair_force (col mp i)) (skipn (S i) mp))) /\
  col (calc_accel mp ma) (length mp - 1) = vzero.
Proof.
  intros HN Hlen.
  destruct (calc_accel_cols mp ma) as [_ Hc].
  assert (Hcol : forall i, (i < length mp)%nat ->
                 col (calc_accel mp ma) i = accel_of mp i).
  { intros i Hi. rewrite Hc, Hlen.
    apply Nat.ltb_lt in Hi. rewrite Hi. reflexivity. }
  split.
  - intros i Hi. rewrite Hcol by exact Hi. reflexivity.
  - rewrite Hcol by lia. unfold accel_of.
    replace (S (length mp - 1)) with (length mp) by lia.
    rewrite skipn_all. reflexivity.
Qed.

Lemma calc_accel_last_particle_zero_witness :
  let mp := [mkVec 0 0 0; mkVec 1 0 0] in
  let ma := [vzero; vzero] in
  (1 <= length mp)%nat /\
  length ma = length mp /\
  (forall i, (i < length mp)%nat ->
     col (calc_accel mp ma) i =
     rowwise_sum (map (pair_force (col mp i)) (skipn (S i) mp))) /\
  col (calc_accel mp ma) (length mp - 1) = vzero.
Proof.
  intros mp ma.
  assert (H1 : (1 <= length mp)%nat) by (simpl; lia).
  assert (H2 : length ma = length mp) by reflexivity.
  split; [exact H1|]. split; [exact H2|].
  exact (calc_accel_last_particle_zero mp ma H1 H2).
Defined.

(** ** The pairwise force law of the code *)

Lemma norm_on_x_axis (r : R) : 0 <= r -> norm (mkVec r 0 0) = r.
Proof.
  intros Hr. unfold norm; simpl.
  replace (r * r + 0 * 0 + 0 * 0) with (r * r) by ring.
  apply sqrt_square. exact Hr.
Qed.

Lemma vsub_origin (q : vec3) : vsub q (mkVec 0 0 0) = q.
Proof. destruct q as [a b c]. unfold vsub; simpl. f_equal; ring. Qed.

(** The code's contribution is the unit separation vector, from the particle
    to its partner, times [24 eps (2 (sigma/r)^7 - (sigma/r)^13)] (read for
    a separation [r > 0], where the inverse of the model is that of the
    program). *)
Lemma pair_force_closed_form (p q : vec3) :
  pair_force p q =
  vscale (code_force_factor (norm (vsub q p)))
         (vscale (/ norm (vsub q p)) (vsub q p)).
Proof.
  unfold pair_force, code_force_factor, vscale; simpl.
  unfold Rdiv. f_equal; ring.
Qed.

Lemma pair_force_on_x_axis (r : R) :
  0 < r ->
  pair_force (mkVec 0 0 0) (mkVec r 0 0) = mkVec (code_force_factor r) 0 0.
Proof.
  intros Hr. unfold pair_force. rewrite vsub_origin.
  rewrite norm_on_x_axis by lra.
  unfold code_force_factor, vscale; simpl. unfold Rdiv.
  f_equal; try ring. field. lra.
Qed.

Lemma code_force_factor_1 :
  code_force_factor 1 = 24 * (2 / 10 ^ 7 - 1 / 10 ^ 13).
Proof. unfold code_force_factor, SIGMA, EPSILON. field. Qed.

Lemma code_force_factor_1_pos : 0 < code_force_factor 1.
Proof. rewrite code_force_factor_1. simpl. lra. Qed.

Lemma calc_accel_two (p q a0 a1 : vec3) :
  calc_accel [p; q] [a0; a1] = [vadd vzero (pair_force p q); vzero].
Proof. reflexivity. Qed.

Lemma vadd_zero_l (v : vec3) : vadd vzero v = v.
Proof. destruct v as [a b c]. unfold vadd; simpl. f_equal; ring. Qed.

Lemma sixth_root_2 :
  let t := Rpower 2 (/ 6) in t ^ 6 = 2 /\ 1 < t < 2.
Proof.
  intros t.
  assert (Ht : 0 < t) by apply exp_pos.
  assert (H6 : t ^ 6 = 2).
  { rewrite <- (Rpower_pow 6 t Ht). unfold t. rewrite Rpower_mult.
    replace (/ 6 * INR 6) with 1 by (simpl; field).
    apply Rpower_1. lra. }
  split; [exact H6|]. split.
  - apply Rnot_le_lt. intros Hle.
    assert (H := pow_incr t 1 6 (conj (Rlt_le _ _ Ht) Hle)).
    rewrite H6, pow1 in H. lra.
  - apply Rnot_le_lt. intros Hle.
    assert (H := pow_incr 2 t 6 (conj (Rlt_le _ _ Rlt_0_2) Hle)).
    rewrite H6 in H. simpl in H. lra.
Qed.

Lemma r_eq_bounds : SIGMA < r_eq < 2 * SIGMA.
Proof.
  destruct sixth_root_2 as [_ [H1 H2]]. unfold r_eq, SIGMA. lra.
Qed.

Lemma code_force_factor_r_eq : code_force_factor r_eq = 18 / Rpower 2 (/ 6).
Proof.
  destruct sixth_root_2 as [H6 [H1 H2]].
  unfold code_force_factor, r_eq, EPSILON.
  set (t := Rpower 2 (/ 6)) in *.
  assert (Hs : SIGMA / (SIGMA * t) = / t) by (unfold SIGMA; field; lra).
  rewrite Hs.
  assert (Hs6 : (/ t) ^ 6 = / 2) by (rewrite pow_inv, H6; reflexivity).
  replace ((/ t) ^ 7) with (/ t * (/ t) ^ 6) by ring.
  replace ((/ t) ^ 13) with (/ t * ((/ t) ^ 6 * (/ t) ^ 6)) by ring.
  rewrite Hs6. field. lra.
Qed.

(** ** Properties of the pairwise force *)

(** C1 (the code departs from it). At separation 1, for the particle at the
    origin and its partner at (1,0,0), [calc_lenjon_force] returns the unit
    separation vector times [24 eps (2 (sigma/r)^7 - (sigma/r)^13)]: the
    exponents 7 and 13 stand the other way round than in the magnitude
    [24 eps (2 (sigma/r)^13 - (sigma/r)^7)] of the specification, and the two differ
    in absolute value. *)
Theorem lenjon_force_exponents_swapped :
  let p := mkVec 0 0 0 in
  let q := mkVec 1 0 0 in
  norm (vsub q p) = 1 /\
  calc_lenjon_force p [q] = [vscale (code_force_factor 1) (vsub q p)] /\
  code_force_factor 1 = 24 * (2 / 10 ^ 7 - 1 / 10 ^ 13) /\
  spec_force_magnitude 1 = 24 * (2 / 10 ^ 13 - 1 / 10 ^ 7) /\
  Rabs (code_force_factor 1) <> Rabs (spec_force_magnitude 1).
Proof.
  intros p q.
  assert (Hn : norm (vsub q p) = 1).
  { unfold p. rewrite vsub_origin. apply norm_on_x_axis. lra. }
  assert (Hs : spec_force_magnitude 1 = 24 * (2 / 10 ^ 13 - 1 / 10 ^ 7)).
  { unfold spec_force_magnitude, SIGMA, EPSILON. field. }
  split; [exact Hn|]. split; [|split; [exact code_force_factor_1|]].
  - rewrite calc_lenjon_force_map. simpl. f_equal.
    unfold p, q. rewrite pair_force_on_x_axis by lra.
    rewrite vsub_origin. unfold vscale; simpl. f_equal; ring.
  - split; [exact Hs|].
    rewrite Hs, code_force_factor_1.
    rewrite Rabs_pos_eq by (simpl; lra).
    rewrite Rabs_left by (simpl; lra).
    simpl. lra.
Qed.

(** C2 (the code departs from it). With the partner on the positive x axis:
    at separation [sigma], which is below [r_eq], the force on the particle
    is (24,0,0), directed toward the partner, hence attractive where the
    specification has it repulsive; and at separation [r_eq] itself the force is
    [18 / 2^(1/6)], more than 9, along the same direction, not zero. *)
Theorem lenjon_force_attractive_below_r_eq :
  let p := mkVec 0 0 0 in
  SIGMA < r_eq /\
  calc_lenjon_force p [mkVec SIGMA 0 0] = [mkVec 24 0 0] /\
  calc_lenjon_force p [mkVec r_eq 0 0] = [mkVec (18 / Rpower 2 (/ 6)) 0 0] /\
  9 < 18 / Rpower 2 (/ 6).
Proof.
  intros p. destruct sixth_root_2 as [_ [H1 H2]].
  pose proof r_eq_bounds as [Hr1 Hr2].
  split; [exact Hr1|]. split; [|split].
  - rewrite calc_lenjon_force_map. simpl. f_equal.
    unfold p. rewrite pair_force_on_x_axis by (unfold SIGMA; lra).
    f_equal. unfold code_force_factor, SIGMA, EPSILON. field.
  - rewrite calc_lenjon_force_map. simpl. f_equal.
    unfold p. rewrite pair_force_on_x_axis by (unfold SIGMA in *; lra).
    f_equal. apply code_force_factor_r_eq.
  - apply Rmult_lt_reg_r with (Rpower 2 (/ 6)); [lra|].
    unfold Rdiv. rewrite Rmult_assoc, Rinv_l by lra. lra.
Qed.

(** C3 (the code departs from it). For the two particles at (0,0,0) and
    (1,0,0), whatever the acceleration matrix held before, [calc_accel]
    stores the pair contribution in the column of the first particle only:
    the column of the second one is zero, not the negation of that
    contribution, which is not zero. *)
Theorem calc_accel_no_reaction_force (a0 a1 : vec3) :
  let p := mkVec 0 0 0 in
  let q := mkVec 1 0 0 in
  let ma := calc_accel [p; q] [a0; a1] in
  col ma 0 = pair_force p q /\
  col ma 1 = vzero /\
  pair_force p q = mkVec (24 * (2 / 10 ^ 7 - 1 / 10 ^ 13)) 0 0 /\
  col ma 1 <> vneg (pair_force p q).
Proof.
  intros p q ma.
  assert (Hf : pair_force p q = mkVec (24 * (2 / 10 ^ 7 - 1 / 10 ^ 13)) 0 0).
  { unfold p, q. rewrite pair_force_on_x_axis by lra.
    rewrite code_force_factor_1. reflexivity. }
  unfold ma. rewrite calc_accel_two, vadd_zero_l. simpl.
  split; [reflexivity|]. split; [reflexivity|]. split; [exact Hf|].
  rewrite Hf. unfold vneg, vzero; simpl. intros H.
  apply (f_equal vx) in H. simpl in H. lra.
Qed.

(** ** The boundary handler, column by column *)

Lemma outside_bool (a lo hi : R) :
  Rgtb a hi || Rltb a lo = true <-> (a > hi \/ a < lo).
Proof.
  unfold Rgtb, Rltb.
  destruct (Rgt_dec a hi), (Rlt_dec a lo); simpl; split; intros H; auto;
    try discriminate.
  destruct H; contradiction.
Qed.

Lemma vec3_eta (c : vec3) : mkVec (vx c) (vy c) (vz c) = c.
Proof. destruct c; reflexivity. Qed.

Lemma border_body (mp : MatrixXd) (left right top bottom front back : R)
    (pi : nat) (mv : MatrixXd) :
  (let mv :=
     if Rgtb (coef mp 0 pi) right || Rltb (coef mp 0 pi) left
     then scale_coef 0 pi (-1) mv else mv in
   let mv :=
     if Rgtb (coef mp 1 pi) top || Rltb (coef mp 1 pi) bottom
     then scale_coef 1 pi (-1) mv else mv in
   let mv :=
     if Rgtb (coef mp 2 pi) back || Rltb (coef mp 2 pi) front
     then scale_coef 2 pi (-1) mv else mv in
   mv) =
  set_col pi (reflect mp left right top bottom front back pi (col mv pi)) mv.
Proof.
  cbv zeta. unfold reflect, scale_coef.
  destruct (le_lt_dec (length mv) pi) as [Hout|Hin].
  - destruct (_ || _), (_ || _), (_ || _);
      repeat (rewrite set_col_out_of_range
                by (rewrite ?length_set_col; exact Hout));
      reflexivity.
  - apply matrix_ext.
    + destruct (_ || _), (_ || _), (_ || _);
        rewrite ?length_set_col; reflexivity.
    + intros j. destruct (Nat.eq_dec j pi) as [->|Hne].
      * destruct (_ || _), (_ || _), (_ || _);
          repeat (rewrite col_set_col_eq by (rewrite ?length_set_col; exact Hin));
          simpl; rewrite ?vec3_eta; reflexivity.
      * destruct (_ || _), (_ || _), (_ || _);
          repeat (rewrite col_set_col_neq by congruence); reflexivity.
Qed.

Lemma border_handling_cols (mp mv : MatrixXd)
    (left right top bottom front back : R) :
  length mv = length mp ->
  let r := border_handling mp mv true left right top bottom front back in
  fst r = mp /\
  length (snd r) = length mv /\
  forall pi, (pi < length mp)%nat ->
    col (snd r) pi =
    reflect mp left right top bottom front back pi (col mv pi).
Proof.
  intros Hlen. unfold border_handling. cbv zeta. simpl fst. simpl snd.
  split; [reflexivity|].
  erewrite for_loop_ext
    by (intros i st _; apply border_body).
  destruct (columnwise_loop
              (reflect mp left right top bottom front back) (length mp) mv)
    as [Hl Hc].
  split; [exact Hl|].
  intros pi Hpi. rewrite Hc, Hlen.
  apply Nat.ltb_lt in Hpi. rewrite Hpi. reflexivity.
Qed.

Lemma reflect_coef (mp : MatrixXd) (left right top bottom front back : R)
    (pi row : nat) (v : vec3) :
  (row < 3)%nat ->
  let lo := low_of row left bottom front in
  let hi := high_of row right top back in
  let w := reflect mp left right top bottom front back pi v in
  (outside mp row pi lo hi ->
   match row with O => vx w | S O => vy w | _ => vz w end =
   - match row with O => vx v | S O => vy v | _ => vz v end) /\
  (~ outside mp row pi lo hi ->
   match row with O => vx w | S O => vy w | _ => vz w end =
   match row with O => vx v | S O => vy v | _ => vz v end).
Proof.
  intros Hrow lo hi w. unfold outside, w, reflect, lo, hi.
  destruct row as [|[|[|row]]]; try lia; simpl;
    match goal with
    | |- context [Rgtb ?a ?h || Rltb ?a ?l] =>
        pose proof (outside_bool a l h) as Hb;
        destruct (Rgtb a h || Rltb a l)
    end;
    (split; intros H;
     [ try ring; apply Hb in H; discriminate
     | try reflexivity; exfalso; apply H; apply Hb; reflexivity ]).
Qed.

(** ** Properties of the boundary handler *)

(** X21. The handler on its own parameters, in closed mode and for matrices
    of the same shape: when the position of particle [pi] is outside
    [[low, high]] on [row] and inside on the two other rows, the handler
    negates the velocity component of [pi] on [row], keeps its two other
    components, keeps the whole position matrix, and keeps the whole
    velocity column of every particle that is inside on the three rows.
    Here [low] is [left], [bottom], [front] and [high] is [right], [top],
    [back], as the tests of the code read them. *)
Lemma border_handling_reflects_outside_row (mp mv : MatrixXd)
    (left right top bottom front back : R) (pi row : nat) :
  length mv = length mp ->
  (pi < length mp)%nat ->
  (row < 3)%nat ->
  outside mp row pi (low_of row left bottom front) (high_of row right top back) ->
  (forall row', (row' < 3)%nat -> row' <> row ->
     ~ outside mp row' pi (low_of row' left bottom front)
         (high_of row' right top back)) ->
  let r := border_handling mp mv true left right top bottom front back in
  fst r = mp /\
  coef (snd r) row pi = - coef mv row pi /\
  (forall row', (row' < 3)%nat -> row' <> row ->
     coef (snd r) row' pi = coef mv row' pi) /\
  (forall pj, (pj < length mp)%nat ->
     (forall row', (row' < 3)%nat ->
        ~ outside mp row' pj (low_of row' left bottom front)
            (high_of row' right top back)) ->
     col (snd r) pj = col mv pj).
Proof.
  intros Hlen Hpi Hrow Hout Hin r.
  destruct (border_handling_cols mp mv left right top bottom front back Hlen)
    as [Hp [_ Hc]].
  fold r in Hp, Hc.
  assert (Hcoef : forall k pk, (k < 3)%nat ->
            coef (snd r) k pk =
            match k with
            | O => vx (col (snd r) pk)
            | S O => vy (col (snd r) pk)
            | _ => vz (col (snd r) pk)
            end).
  { intros k pk Hk. destruct k as [|[|[|k]]]; try lia; reflexivity. }
  assert (Hcoef' : forall k pk, (k < 3)%nat ->
            coef mv k pk =
            match k with
            | O => vx (col mv pk)
            | S O => vy (col mv pk)
            | _ => vz (col mv pk)
            end).
  { intros k pk Hk. destruct k as [|[|[|k]]]; try lia; reflexivity. }
  split; [exact Hp|]. split; [|split].
  - rewrite Hcoef, Hcoef', Hc by assumption.
    apply (reflect_coef mp left right top bottom front back pi row
             (col mv pi) Hrow). exact Hout.
  - intros row' Hrow' Hne.
    rewrite Hcoef, Hcoef', Hc by assumption.
    apply (reflect_coef mp left right top bottom front back pi row'
             (col mv pi) Hrow'). apply Hin; assumption.
  - intros pj Hpj Hins. rewrite Hc by exact Hpj.
    rewrite <- (vec3_eta (col mv pj)) at 2.
    unfold reflect.
    pose proof (Hins 0%nat ltac:(lia)) as H0.
    pose proof (Hins 1%nat ltac:(lia)) as H1.
    pose proof (Hins 2%nat ltac:(lia)) as H2.
    unfold outside, low_of, high_of in H0, H1, H2.
    rewrite <- outside_bool in H0, H1, H2.
    apply not_true_is_false in H0, H1, H2.
    rewrite H0, H1, H2. reflexivity.
Qed.

Lemma border_handling_reflects_outside_row_example :
  let mp := [mkVec 3 1 1; mkVec 1 1 1] in
  let mv := [mkVec 5 6 7; mkVec 8 9 10] in
  let r := border_handling mp mv true 0 2 2 0 0 2 in
  fst r = mp /\
  coef (snd r) 0 0 = - coef mv 0 0 /\
  (forall row', (row' < 3)%nat -> row' <> 0%nat ->
     coef (snd r) row' 0 = coef mv row' 0) /\
  (forall pj, (pj < length mp)%nat ->
     (forall row', (row' < 3)%nat ->
        ~ outside mp row' pj (low_of row' 0 0 0) (high_of row' 2 2 2)) ->
     col (snd r) pj = col mv pj).
Proof.
  intros mp mv.
  apply (border_handling_reflects_outside_row mp mv 0 2 2 0 0 2 0 0).
  - reflexivity.
  - simpl. lia.
  - lia.
  - left. simpl. lra.
  - intros row' Hlt Hne [H|H];
      destruct row' as [|[|[|row']]]; try lia; simpl in H; lra.
Defined.

(** X22. The handler as [simulate] invokes it, with the arguments
    [0, po, 0, po, 0, po] for [left, right, top, bottom, front, back]: the
    top face is at 0 and the bottom face at [po], so for [po > 0] every
    particle is beyond one of the two, and the handler negates the y
    velocity of every particle, wherever it is. *)
Lemma border_handling_as_invoked_flips_y (mp mv : MatrixXd) (po : R)
    (pi : nat) :
  0 < po ->
  length mv = length mp ->
  (pi < length mp)%nat ->
  vy (col (snd (border_handling mp mv true 0 po 0 po 0 po)) pi) =
  - vy (col mv pi).
Proof.
  intros Hpo Hlen Hpi.
  destruct (border_handling_cols mp mv 0 po 0 po 0 po Hlen) as [_ [_ Hc]].
  rewrite Hc by exact Hpi. unfold reflect, coef. cbn [vy].
  assert (Hb : Rgtb (vy (col mp pi)) 0 || Rltb (vy (col mp pi)) po = true).
  { apply outside_bool.
    destruct (Rlt_dec 0 (vy (col mp pi))); [left|right]; lra. }
  rewrite Hb. ring.
Qed.

(** C7, as the code has it. When the open mode is selected
    ([closed = false]) the handler returns with every position and every
    velocity as it was, and nothing is reported. *)
Theorem border_handling_open_mode_does_nothing (mp mv : MatrixXd)
    (left right top bottom front back : R) :
  border_handling mp mv false left right top bottom front back = (mp, mv).
Proof. reflexivity. Qed.

(** C7, the specification refuted: in open mode a particle beyond the right face
    comes back from the handler untouched, as a normal result, while closed
    mode reverses its x velocity. *)
Lemma border_handling_open_mode_silent :
  border_handling [mkVec 2 0 0] [mkVec 1 0 0] false 0 1 1 0 0 1 =
    ([mkVec 2 0 0], [mkVec 1 0 0]) /\
  border_handling [mkVec 2 0 0] [mkVec 1 0 0] true 0 1 1 0 0 1 =
    ([mkVec 2 0 0], [mkVec (-1) 0 0]).
Proof.
  split; [reflexivity|].
  unfold border_handling, for_loop. simpl.
  unfold Rgtb, Rltb.
  destruct (Rgt_dec 2 1) as [_|H]; [|lra].
  destruct (Rgt_dec 0 1) as [H|_]; [lra|].
  destruct (Rlt_dec 0 0) as [H|_]; [lra|].
  simpl. unfold col; simpl. do 3 f_equal. ring.
Qed.

(** ** The integrator *)

Lemma ceil_INR (n : nat) : ceil (INR n) = Z.of_nat n.
Proof.
  unfold ceil.
  rewrite <- (Int_part_spec (- INR n) (- Z.of_nat n)).
  - lia.
  - rewrite opp_IZR, <- INR_IZR_INZ. lra.
Qed.

Lemma simulate_steps (mp mv ma : MatrixXd) (td : R) (n : nat)
    (serialize : bool) (tbuf : string) :
  simulate mp mv ma td (INR (S n)) serialize tbuf =
  verlet_step td (cbrt (INR (length mp))) serialize
    (if serialize then snd (init_serialize tbuf) else EmptyString) n
    (simulate mp mv ma td (INR n) serialize tbuf).
Proof.
  unfold simulate. rewrite !ceil_INR, !Nat2Z.id.
  destruct serialize; simpl; rewrite for_loop_S; reflexivity.
Qed.

Lemma simulate_no_step (mp mv ma : MatrixXd) (td : R) (tbuf : string) :
  simulate mp mv ma td 0 false tbuf =
  mkSystem mp mv (calc_accel mp ma)
    (if Reqb (fmod1 (cbrt (INR (length mp)))) 0 then []
     else [EPrint wrong_size]).
Proof.
  unfold simulate. change 0 with (INR 0). rewrite ceil_INR. reflexivity.
Qed.

(** What a turn of the loop leaves in the acceleration matrix: the
    accelerations of the updated positions plus the matrix it started
    from. *)
Lemma verlet_step_ma (td po : R) (serialize : bool) (path : string)
    (ts : nat) (s : system) :
  let s' := verlet_step td po serialize path ts s in
  sys_mp s' =
    madd (madd (sys_mp s) (mscale td (sys_mv s)))
         (mscale (td ^ 2) (mscale (1 / 2) (sys_ma s))) /\
  sys_ma s' = madd (calc_accel (sys_mp s') (sys_ma s)) (sys_ma s).
Proof.
  destruct s as [mp mv ma out]. unfold verlet_step, border_handling.
  cbv zeta. destruct serialize; simpl; split; reflexivity.
Qed.

(** C4 (the code departs from it). Two particles at rest at (0,0,0) and
    (1,0,0): after the first step of [simulate] the acceleration matrix,
    from which the second step starts its position update, is the sum of
    the accelerations of the updated positions and of those computed before
    the step; for the first particle it exceeds the acceleration of the
    updated positions by [24 (2/10^7 - 1/10^13)]. *)
Theorem simulate_carries_summed_acceleration :
  let mp0 := [mkVec 0 0 0; mkVec 1 0 0] in
  let mv0 := [vzero; vzero] in
  let ma0 := [vzero; vzero] in
  let po := cbrt (INR (length mp0)) in
  let s1 := simulate mp0 mv0 ma0 TIMESTEP 1 false EmptyString in
  let a_old := calc_accel mp0 ma0 in
  let a_new := calc_accel (sys_mp s1) a_old in
  sys_ma s1 = madd a_new a_old /\
  vx (col (sys_ma s1) 0) = vx (col a_new 0) + 24 * (2 / 10 ^ 7 - 1 / 10 ^ 13) /\
  sys_ma s1 <> a_new /\
  sys_mp (simulate mp0 mv0 ma0 TIMESTEP 2 false EmptyString) =
    madd (madd (sys_mp s1) (mscale TIMESTEP (sys_mv s1)))
         (mscale (TIMESTEP ^ 2) (mscale (1 / 2) (sys_ma s1))).
Proof.
  intros mp0 mv0 ma0 po s1 a_old a_new.
  assert (Hs1 : s1 = verlet_step TIMESTEP po false EmptyString 0
                       (simulate mp0 mv0 ma0 TIMESTEP 0 false EmptyString)).
  { exact (simulate_steps mp0 mv0 ma0 TIMESTEP 0 false EmptyString). }
  assert (Hma : sys_ma s1 = madd a_new a_old).
  { unfold a_new.
    destruct (verlet_step_ma TIMESTEP po false EmptyString 0
                (simulate mp0 mv0 ma0 TIMESTEP 0 false EmptyString))
      as [_ H].
    cbv zeta in H. rewrite <- Hs1 in H. rewrite H.
    rewrite simulate_no_step. reflexivity. }
  assert (Hold : a_old = [mkVec (24 * (2 / 10 ^ 7 - 1 / 10 ^ 13)) 0 0; vzero]).
  { unfold a_old, mp0, ma0. rewrite calc_accel_two, vadd_zero_l.
    rewrite pair_force_on_x_axis by lra.
    rewrite code_force_factor_1. reflexivity. }
  assert (Hlen : length a_new = 2%nat).
  { unfold a_new. destruct (calc_accel_cols (sys_mp s1) a_old) as [Hl _].
    rewrite Hl, Hold. reflexivity. }
  assert (Hx : vx (col (sys_ma s1) 0) =
               vx (col a_new 0) + 24 * (2 / 10 ^ 7 - 1 / 10 ^ 13)).
  { rewrite Hma. clearbody a_new a_old s1. subst a_old.
    destruct a_new as [|u [|v [|w l]]]; try discriminate.
    reflexivity. }
  split; [exact Hma|]. split; [exact Hx|]. split.
  - intros Heq. rewrite Heq in Hx. simpl in Hx. lra.
  - pose proof (simulate_steps mp0 mv0 ma0 TIMESTEP 1 false EmptyString)
      as H2.
    change (INR 2) with 2 in H2. change (INR 1) with 1 in H2.
    fold s1 po in H2. rewrite H2.
    apply (verlet_step_ma TIMESTEP po false EmptyString 1 s1).
Qed.

(** ** Cube roots of particle counts *)

Lemma cbrt_pos (x : R) : 0 < x -> cbrt x = Rpower x (/ 3).
Proof. intros H. unfold cbrt. destruct (Rlt_dec 0 x); [reflexivity|lra]. Qed.

Lemma cbrt_0 : cbrt 0 = 0.
Proof.
  unfold cbrt. destruct (Rlt_dec 0 0); [lra|].
  destruct (Rlt_dec 0 0); [lra|reflexivity].
Qed.

Lemma cbrt_nonneg (x : R) : 0 <= x -> 0 <= cbrt x.
Proof.
  intros [H|<-].
  - rewrite cbrt_pos by exact H. left. apply exp_pos.
  - rewrite cbrt_0. lra.
Qed.

Lemma cbrt_pow3 (x : R) : 0 <= x -> cbrt x ^ 3 = x.
Proof.
  intros [H|<-].
  - rewrite cbrt_pos by exact H.
    rewrite <- (Rpower_pow 3) by apply exp_pos.
    rewrite Rpower_mult.
    replace (/ 3 * INR 3) with 1 by (simpl; field).
    apply Rpower_1. exact H.
  - rewrite cbrt_0. ring.
Qed.

Lemma cbrt_of_cube (y : R) : 0 <= y -> cbrt (y ^ 3) = y.
Proof.
  intros [H|<-].
  - assert (H3 : 0 < y ^ 3) by (apply pow_lt; exact H).
    rewrite cbrt_pos by exact H3.
    rewrite <- (Rpower_pow 3) by exact H.
    rewrite Rpower_mult.
    replace (INR 3 * / 3) with 1 by (simpl; field).
    apply Rpower_1. exact H.
  - replace (0 ^ 3) with 0 by ring. apply cbrt_0.
Qed.

Lemma INR_cube (k : nat) : INR (k * k * k) = INR k ^ 3.
Proof. rewrite !mult_INR. ring. Qed.

Lemma trunc_INR (k : nat) : trunc (INR k) = Z.of_nat k.
Proof.
  unfold trunc. destruct (Rle_dec 0 (INR k)) as [_|H].
  - symmetry. apply Int_part_spec. rewrite <- INR_IZR_INZ. lra.
  - exfalso. apply H. apply pos_INR.
Qed.

Lemma fmod1_INR (k : nat) : fmod1 (INR k) = 0.
Proof. unfold fmod1. rewrite trunc_INR, <- INR_IZR_INZ. ring. Qed.

(** The test [fmod(po, 1) != 0] of [init_grid] and [simulate] fails exactly
    for the particle counts that are cubes. *)
Lemma wrong_size_test (n : nat) :
  Reqb (fmod1 (cbrt (INR n))) 0 = true <-> perfect_cube n.
Proof.
  unfold Reqb. destruct (Req_dec_T (fmod1 (cbrt (INR n))) 0) as [H|H].
  - split; [intros _|reflexivity].
    assert (Hc : 0 <= cbrt (INR n)) by (apply cbrt_nonneg, pos_INR).
    unfold fmod1, trunc in H.
    destruct (Rle_dec 0 (cbrt (INR n))) as [_|Hn]; [|contradiction].
    set (z := Int_part (cbrt (INR n))) in *.
    assert (Hz : cbrt (INR n) = IZR z) by lra.
    assert (Hz0 : (0 <= z)%Z) by (apply le_IZR; lra).
    exists (Z.to_nat z). apply INR_eq.
    rewrite INR_cube, (INR_IZR_INZ (Z.to_nat z)), Z2Nat.id, <- Hz by exact Hz0.
    symmetry. apply cbrt_pow3, pos_INR.
  - split; [discriminate|]. intros [k ->]. exfalso. apply H.
    rewrite INR_cube, cbrt_of_cube by apply pos_INR.
    apply fmod1_INR.
Qed.

Lemma not_perfect_cube_2 : ~ perfect_cube 2.
Proof.
  intros [k H]. destruct k as [|[|k]]; simpl in H; try discriminate. nia.
Qed.

(** ** The lattice initializer *)

Lemma grid_body_length (side : Z) (pi : nat) (st : MatrixXd * lattice) :
  length (fst (grid_body side pi st)) = length (fst st).
Proof.
  destruct st as [mp [x y z]]. unfold grid_body.
  destruct (Z.rem (x + 1) side =? 0)%Z;
    match goal with
    | |- context [negb ?a && ?b] => destruct (negb a && b)
    end; simpl; apply length_set_col.
Qed.

Lemma grid_loop_length (side : Z) (n : nat) (st : MatrixXd * lattice) :
  length (fst (for_loop n (grid_body side) st)) = length (fst st).
Proof.
  induction n as [|n IH]; [reflexivity|].
  rewrite for_loop_S, grid_body_length. exact IH.
Qed.

Lemma unit_cube_NoDup : NoDup unit_cube.
Proof.
  unfold unit_cube.
  repeat (constructor;
          [ simpl; intros H;
            repeat (destruct H as [H|H]; [injection H; intros; lra|]);
            exact H
          | ]).
  constructor.
Qed.

Lemma unit_cube_points (v : vec3) :
  In v unit_cube <->
  (vx v = 0 \/ vx v = 1) /\ (vy v = 0 \/ vy v = 1) /\ (vz v = 0 \/ vz v = 1).
Proof.
  unfold unit_cube. split.
  - simpl. intros H.
    repeat (destruct H as [H|H]; [subst v; simpl; auto|]). contradiction.
  - destruct v as [a b c]. simpl.
    intros [[-> | ->] [[-> | ->] [-> | ->]]]; auto 10.
Qed.

(** C8. For a position matrix of 8 columns, [init_grid] prints nothing and
    leaves in the matrix the points (0,0,0), (1,0,0), (0,1,0), (1,1,0),
    (0,0,1), (1,0,1), (0,1,1), (1,1,1) in this order (x fastest, then y,
    then z): no point twice, and exactly the points with every coordinate
    0 or 1. *)
Theorem init_grid_unit_cube (mp : MatrixXd) :
  length mp = 8%nat ->
  let r := snd (init_grid mp) in
  fst (init_grid mp) = [] /\
  r = unit_cube /\
  NoDup r /\
  (forall v, In v r <->
     (vx v = 0 \/ vx v = 1) /\ (vy v = 0 \/ vy v = 1) /\
     (vz v = 0 \/ vz v = 1)).
Proof.
  intros Hlen r.
  assert (Hpo : cbrt (INR (length mp)) = INR 2).
  { rewrite Hlen. change 8%nat with (2 * 2 * 2)%nat.
    rewrite INR_cube. apply cbrt_of_cube, pos_INR. }
  assert (Hr : r = unit_cube).
  { unfold r, init_grid. cbv zeta. rewrite Hpo, trunc_INR, Hlen.
    destruct mp as [|c0 [|c1 [|c2 [|c3 [|c4 [|c5 [|c6 [|c7 [|c8 l]]]]]]]]];
      try discriminate.
    reflexivity. }
  split; [|split; [exact Hr|rewrite Hr; split]].
  - unfold init_grid. cbv zeta. rewrite Hpo, fmod1_INR.
    unfold Reqb. destruct (Req_dec_T 0 0); [reflexivity|contradiction].
  - exact unit_cube_NoDup.
  - exact unit_cube_points.
Qed.

Lemma init_grid_unit_cube_witness :
  let mp := repeat (mkVec 7 7 7) 8 in
  fst (init_grid mp) = [] /\ snd (init_grid mp) = unit_cube.
Proof.
  intros mp.
  destruct (init_grid_unit_cube mp) as [H1 [H2 _]].
  - reflexivity.
  - split; [exact H1 | exact H2].
Defined.

(** ** The output of a run *)

Lemma verlet_step_out (td po : R) (path : string) (ts : nat) (s : system) :
  sys_out (verlet_step td po true path ts s) =
  (sys_out s ++ [EWrite path ts (sys_mp (verlet_step td po true path ts s))])%list.
Proof. destruct s as [mp mv ma out]. reflexivity. Qed.

Lemma verlet_loop_out (td po : R) (path : string) (n : nat) (s : system) :
  sys_out (for_loop n (verlet_step td po true path) s) =
  (sys_out s ++
   map (fun ts =>
          EWrite path ts
            (sys_mp (for_loop (S ts) (verlet_step td po true path) s)))
       (seq 0 n))%list.
Proof.
  induction n as [|n IH].
  - simpl. rewrite app_nil_r. reflexivity.
  - rewrite for_loop_S at 1. rewrite verlet_step_out, IH.
    rewrite seq_S, map_app, <- app_assoc. simpl.
    rewrite <- for_loop_S. reflexivity.
Qed.

(** The whole output of [simulate] with serialization: the directory, the
    complaint about the size when the count is no cube, and one snapshot
    for every step [0 .. ceil tts - 1]. *)
Lemma simulate_trace (mp mv ma : MatrixXd) (td tts : R) (tbuf : string) :
  exists snap : nat -> MatrixXd,
    sys_out (simulate mp mv ma td tts true tbuf) =
    (EMkdir ("mds-" ++ tbuf ++ "/")%string ::
     (if Reqb (fmod1 (cbrt (INR (length mp)))) 0 then []
      else [EPrint wrong_size]) ++
     map (fun ts => EWrite ("mds-" ++ tbuf ++ "/")%string ts (snap ts))
         (seq 0 (Z.to_nat (ceil tts))))%list.
Proof.
  set (path := ("mds-" ++ tbuf ++ "/")%string).
  set (po := cbrt (INR (length mp))).
  set (out0 := if Reqb (fmod1 po) 0 then [EMkdir path]
               else ([EMkdir path] ++ [EPrint wrong_size])%list).
  exists (fun ts =>
            sys_mp (for_loop (S ts) (verlet_step td po true path)
                      (mkSystem mp mv (calc_accel mp ma) out0))).
  assert (Hsim : simulate mp mv ma td tts true tbuf =
                 for_loop (Z.to_nat (ceil tts)) (verlet_step td po true path)
                   (mkSystem mp mv (calc_accel mp ma) out0))
    by reflexivity.
  rewrite Hsim, verlet_loop_out. unfold out0.
  destruct (Reqb (fmod1 po) 0); reflexivity.
Qed.

Lemma init_grid_length (mp : MatrixXd) :
  length (snd (init_grid mp)) = length mp.
Proof. unfold init_grid. cbv zeta. simpl snd. apply grid_loop_length. Qed.

(** ** The boundary handler inside the integrator *)

Lemma verlet_step_mv (td po : R) (serialize : bool) (path : string)
    (ts : nat) (s : system) :
  let s' := verlet_step td po serialize path ts s in
  sys_mv s' =
  snd (border_handling (sys_mp s')
         (madd (sys_mv s) (mscale td (mscale (1 / 2) (sys_ma s'))))
         true 0 po 0 po 0 po).
Proof.
  destruct s as [mp mv ma out]. unfold verlet_step, border_handling.
  cbv zeta. destruct serialize; reflexivity.
Qed.

Lemma singleton_matrix (m : MatrixXd) : length m = 1%nat -> m = [col m 0].
Proof. destruct m as [|c [|d m]]; try discriminate. reflexivity. Qed.

(** C5 (the code departs from it). One particle, so that the cell is
    [[0,1]^3], at (1/2,1/2,1/2) with velocity (0,1,0): after the one step
    of [simulate] the particle is at (1/2, 1/2 + dt, 1/2), inside the cell
    on the three axes, and the handler has reversed its y velocity. *)
Theorem simulate_reverses_y_inside_cell :
  let mp0 := [mkVec (1 / 2) (1 / 2) (1 / 2)] in
  let mv0 := [mkVec 0 1 0] in
  let ma0 := [vzero] in
  let s1 := simulate mp0 mv0 ma0 TIMESTEP 1 false EmptyString in
  cbrt (INR (length mp0)) = 1 /\
  sys_mp s1 = [mkVec (1 / 2) (1 / 2 + TIMESTEP) (1 / 2)] /\
  sys_mv s1 = [mkVec 0 (-1) 0].
Proof.
  intros mp0 mv0 ma0 s1.
  assert (Hpo : cbrt (INR (length mp0)) = 1).
  { replace (INR (length mp0)) with (1 ^ 3) by (simpl; ring).
    apply cbrt_of_cube. lra. }
  set (s0 := simulate mp0 mv0 ma0 TIMESTEP 0 false EmptyString).
  assert (Hs1 : s1 = verlet_step TIMESTEP (cbrt (INR (length mp0))) false
                       EmptyString 0 s0).
  { exact (simulate_steps mp0 mv0 ma0 TIMESTEP 0 false EmptyString). }
  assert (Hs0 : sys_mp s0 = mp0 /\ sys_mv s0 = mv0 /\ sys_ma s0 = [vzero]).
  { unfold s0. rewrite simulate_no_step. repeat split. }
  destruct Hs0 as [Hp0 [Hv0 Ha0]].
  destruct (verlet_step_ma TIMESTEP (cbrt (INR (length mp0))) false
              EmptyString 0 s0) as [Hmp Hma].
  pose proof (verlet_step_mv TIMESTEP (cbrt (INR (length mp0))) false
                EmptyString 0 s0) as Hmv.
  cbv zeta in Hmp, Hma, Hmv. rewrite <- Hs1 in Hmp, Hma, Hmv.
  rewrite Hp0, Hv0, Ha0 in Hmp.
  assert (Hmp' : sys_mp s1 = [mkVec (1 / 2) (1 / 2 + TIMESTEP) (1 / 2)]).
  { rewrite Hmp. unfold mp0, mv0, mscale; simpl.
    unfold vadd, vscale, vzero; simpl. do 2 f_equal; ring. }
  assert (Hma' : sys_ma s1 = [vzero]).
  { rewrite Hma, Hmp', Ha0.
    unfold calc_accel, for_loop, rowwise_sum; simpl.
    unfold vadd, vzero; simpl. do 2 f_equal; ring. }
  rewrite Hv0, Hma', Hmp', Hpo in Hmv.
  split; [exact Hpo|]. split; [exact Hmp'|].
  set (mp1 := [mkVec (1 / 2) (1 / 2 + TIMESTEP) (1 / 2)]) in *.
  set (mv1 := madd mv0 (mscale TIMESTEP (mscale (1 / 2) [vzero]))) in *.
  destruct (border_handling_cols mp1 mv1 0 1 0 1 0 1 eq_refl)
    as [_ [Hl Hc]].
  cbv zeta in Hl, Hc. rewrite <- Hmv in Hl, Hc.
  rewrite (singleton_matrix (sys_mv s1)) by exact Hl.
  rewrite (Hc 0%nat) by (simpl; lia).
  unfold reflect, coef, mp1, mv1, col, Rgtb, Rltb, TIMESTEP; simpl.
  destruct (Rgt_dec (1 / 2) 1) as [H|_]; [lra|].
  destruct (Rlt_dec (1 / 2) 0) as [H|_]; [lra|].
  destruct (Rgt_dec (1 / 2 + 1 / 1000000) 0) as [_|H]; [|lra].
  simpl. do 2 f_equal; ring.
Qed.

(** ** The lattice for every particle count *)

Lemma rem_next_digit (s a : Z) :
  (0 <= a < s)%Z -> (Z.rem (a + 1) s =? 0)%Z = (a + 1 =? s)%Z.
Proof.
  intros Ha. destruct (Z.eq_dec (a + 1) s) as [E|E].
  - rewrite E, Z.rem_same, !Z.eqb_refl by lia. reflexivity.
  - rewrite Z.rem_small by lia.
    transitivity false; [|symmetry]; apply Z.eqb_neq; lia.
Qed.

Lemma digits_unique (s n a b c : Z) :
  (0 <= a < s)%Z -> (0 <= b < s)%Z -> (0 <= c)%Z ->
  n = (a + s * b + s * s * c)%Z ->
  (n mod s = a /\ (n / s) mod s = b /\ n / (s * s) = c)%Z.
Proof.
  intros Ha Hb Hc Hn.
  assert (Hq : (n / s = b + s * c)%Z).
  { symmetry. apply (Z.div_unique n s (b + s * c) a); [left; exact Ha|].
    rewrite Hn. ring. }
  split; [|split].
  - symmetry. apply (Z.mod_unique n s (b + s * c) a); [left; exact Ha|].
    rewrite Hn. ring.
  - rewrite Hq. symmetry.
    apply (Z.mod_unique (b + s * c) s c b); [left; exact Hb|]. ring.
  - rewrite <- Z.div_div by lia. rewrite Hq. symmetry.
    apply (Z.div_unique (b + s * c) s c b); [left; exact Hb|]. ring.
Qed.

Lemma digits_exist (s n : Z) :
  (0 < s)%Z -> (0 <= n)%Z ->
  (0 <= n mod s < s)%Z /\ (0 <= (n / s) mod s < s)%Z /\
  (0 <= n / (s * s))%Z /\
  n = (n mod s + s * ((n / s) mod s) + s * s * (n / (s * s)))%Z.
Proof.
  intros Hs Hn.
  split; [apply Z.mod_pos_bound; exact Hs|].
  split; [apply Z.mod_pos_bound; exact Hs|].
  split; [apply Z.div_pos; nia|].
  rewrite <- Z.div_div by lia.
  pose proof (Z.div_mod n s ltac:(lia)) as H1.
  pose proof (Z.div_mod (n / s) s ltac:(lia)) as H2.
  nia.
Qed.

(** One turn of the loop of [init_grid] writes the digits of the index and
    moves the counters to the digits of the next index. *)
Lemma grid_body_step (s : Z) (pi : nat) (mp : MatrixXd) (n : Z) :
  (0 < s)%Z -> (0 <= n)%Z ->
  grid_body s pi
    (mp, mkLattice (n mod s) ((n / s) mod s) (n / (s * s))) =
  (set_col pi
     (mkVec (IZR (n mod s)) (IZR ((n / s) mod s)) (IZR (n / (s * s)))) mp,
   mkLattice ((n + 1) mod s) (((n + 1) / s) mod s) ((n + 1) / (s * s))).
Proof.
  intros Hs Hn.
  destruct (digits_exist s n Hs Hn) as [Ha [Hb [Hc Hd]]].
  set (a := (n mod s)%Z) in *. set (b := ((n / s) mod s)%Z) in *.
  set (c := (n / (s * s))%Z) in *.
  unfold grid_body. rewrite rem_next_digit by exact Ha.
  destruct (a + 1 =? s)%Z eqn:Ea.
  - apply Z.eqb_eq in Ea. rewrite rem_next_digit by exact Hb.
    replace (b + 1 =? 0)%Z with false by (symmetry; apply Z.eqb_neq; lia).
    simpl negb. simpl andb.
    destruct (b + 1 =? s)%Z eqn:Eb.
    + apply Z.eqb_eq in Eb.
      destruct (digits_unique s (n + 1) 0 0 (c + 1)
                  ltac:(lia) ltac:(lia) ltac:(lia) ltac:(nia))
        as [E1 [E2 E3]].
      rewrite E1, E2, E3. reflexivity.
    + apply Z.eqb_neq in Eb.
      destruct (digits_unique s (n + 1) 0 (b + 1) c
                  ltac:(lia) ltac:(lia) ltac:(lia) ltac:(nia))
        as [E1 [E2 E3]].
      rewrite E1, E2, E3. reflexivity.
  - apply Z.eqb_neq in Ea.
    assert (Hb' : (negb (b =? 0) && (Z.rem b s =? 0))%Z = false).
    { destruct (b =? 0)%Z eqn:Eb; [reflexivity|].
      apply Z.eqb_neq in Eb. rewrite Z.rem_small by lia.
      simpl. apply Z.eqb_neq. exact Eb. }
    rewrite Hb'.
    destruct (digits_unique s (n + 1) (a + 1) b c
                ltac:(lia) ltac:(lia) ltac:(lia) ltac:(nia))
      as [E1 [E2 E3]].
    rewrite E1, E2, E3. reflexivity.
Qed.

Lemma grid_loop_closed (s : Z) (k : nat) (mp : MatrixXd) :
  (0 < s)%Z ->
  for_loop k (grid_body s) (mp, mkLattice 0 0 0) =
  (for_loop k (fun pi m => set_col pi (lattice_point s pi) m) mp,
   mkLattice (Z.of_nat k mod s) ((Z.of_nat k / s) mod s)
     (Z.of_nat k / (s * s))).
Proof.
  intros Hs. induction k as [|k IH].
  - simpl Z.of_nat. rewrite Z.mod_0_l, Z.div_0_l, Z.div_0_l, Z.mod_0_l by lia.
    reflexivity.
  - rewrite !for_loop_S, IH, grid_body_step by lia.
    rewrite Nat2Z.inj_succ. unfold Z.succ. reflexivity.
Qed.

Lemma overwrite_loop (f : nat -> vec3) (m : MatrixXd) :
  for_loop (length m) (fun pi m => set_col pi (f pi) m) m =
  map f (seq 0 (length m)).
Proof.
  destruct (columnwise_loop (fun pi _ => f pi) (length m) m) as [Hl Hc].
  cbv zeta in Hl, Hc.
  apply (nth_ext _ _ vzero (f O)).
  - rewrite Hl, length_map, length_seq. reflexivity.
  - intros i Hi. rewrite Hl in Hi.
    fold (col (for_loop (length m) (fun pi m0 => set_col pi (f pi) m0) m) i).
    rewrite Hc. apply Nat.ltb_lt in Hi. rewrite Hi. simpl.
    apply Nat.ltb_lt in Hi.
    rewrite (map_nth f), seq_nth by exact Hi. reflexivity.
Qed.

Lemma trunc_cbrt_pos (n : nat) :
  (1 <= n)%nat -> (1 <= trunc (cbrt (INR n)))%Z.
Proof.
  intros Hn.
  assert (H1 : 1 <= INR n) by (change 1 with (INR 1); apply le_INR; exact Hn).
  assert (Hc : 0 <= cbrt (INR n)) by (apply cbrt_nonneg; lra).
  assert (H3 : cbrt (INR n) ^ 3 = INR n) by (apply cbrt_pow3; lra).
  assert (Hc1 : 1 <= cbrt (INR n)).
  { apply Rnot_lt_le. intros Hlt.
    assert (cbrt (INR n) ^ 3 < 1); [|lra].
    simpl. nra. }
  unfold trunc. destruct (Rle_dec 0 (cbrt (INR n))) as [_|H]; [|contradiction].
  destruct (base_Int_part (cbrt (INR n))) as [_ Hi].
  assert (Hz : (0 < Int_part (cbrt (INR n)))%Z) by (apply lt_IZR; lra).
  lia.
Qed.

Lemma lattice_point_digits (k a b c : nat) :
  (a < k)%nat -> (b < k)%nat ->
  lattice_point (Z.of_nat k) (a + k * b + k * k * c) =
  mkVec (INR a) (INR b) (INR c).
Proof.
  intros Ha Hb. unfold lattice_point. cbv zeta.
  destruct (digits_unique (Z.of_nat k) (Z.of_nat (a + k * b + k * k * c))
              (Z.of_nat a) (Z.of_nat b) (Z.of_nat c)
              ltac:(lia) ltac:(lia) ltac:(lia) ltac:(nia))
    as [E1 [E2 E3]].
  rewrite E1, E2, E3, <- !INR_IZR_INZ. reflexivity.
Qed.

Lemma lattice_point_inj (s : Z) (i j : nat) :
  (0 < s)%Z -> lattice_point s i = lattice_point s j -> i = j.
Proof.
  intros Hs H. unfold lattice_point in H. cbv zeta in H.
  injection H as H1 H2 H3.
  apply eq_IZR in H1, H2, H3.
  destruct (digits_exist s (Z.of_nat i) Hs ltac:(lia)) as [_ [_ [_ Hi]]].
  destruct (digits_exist s (Z.of_nat j) Hs ltac:(lia)) as [_ [_ [_ Hj]]].
  apply Nat2Z.inj. rewrite Hi, Hj, H1, H2, H3. reflexivity.
Qed.

Lemma init_grid_closed (mp : MatrixXd) :
  snd (init_grid mp) =
  map (lattice_point (trunc (cbrt (INR (length mp))))) (seq 0 (length mp)).
Proof.
  destruct (Nat.eq_dec (length mp) 0) as [H0|H0].
  - apply length_zero_iff_nil in H0. subst mp. reflexivity.
  - assert (Hs : (0 < trunc (cbrt (INR (length mp))))%Z).
    { pose proof (trunc_cbrt_pos (length mp) ltac:(lia)). lia. }
    unfold init_grid. cbv zeta. cbn [snd].
    rewrite grid_loop_closed by exact Hs. cbn [fst].
    apply overwrite_loop.
Qed.

Lemma init_grid_prints (mp : MatrixXd) :
  fst (init_grid mp) =
  if Reqb (fmod1 (cbrt (INR (length mp)))) 0 then [] else [EPrint wrong_size].
Proof. reflexivity. Qed.

Lemma init_grid_silent_on_cube (k : nat) (mp : MatrixXd) :
  length mp = (k * k * k)%nat -> fst (init_grid mp) = [].
Proof.
  intros Hlen. rewrite init_grid_prints.
  replace (Reqb (fmod1 (cbrt (INR (length mp)))) 0) with true; [reflexivity|].
  symmetry. apply wrong_size_test. exists k. exact Hlen.
Qed.

Lemma trunc_pos (po : R) : 1 <= po -> (1 <= trunc po)%Z.
Proof.
  intros H. unfold trunc. destruct (Rle_dec 0 po) as [_|Hn]; [|lra].
  destruct (base_Int_part po) as [_ Hi].
  assert (Hz : (0 < Int_part po)%Z) by (apply lt_IZR; lra).
  lia.
Qed.

Lemma init_grid_from_cbrt (mp : MatrixXd) :
  init_grid mp = init_grid_from (cbrt (INR (length mp))) mp.
Proof. reflexivity. Qed.

Lemma init_grid_from_closed (po : R) (mp : MatrixXd) :
  1 <= po ->
  snd (init_grid_from po mp) =
  map (lattice_point (trunc po)) (seq 0 (length mp)).
Proof.
  intros Hpo. pose proof (trunc_pos po Hpo) as Hs.
  unfold init_grid_from. cbv zeta. cbn [snd].
  rewrite grid_loop_closed by lia. cbn [fst].
  apply overwrite_loop.
Qed.

Lemma lattice_NoDup (s : Z) (n : nat) :
  (0 < s)%Z -> NoDup (map (lattice_point s) (seq 0 n)).
Proof.
  intros Hs. apply NoDup_map_NoDup_ForallPairs; [|apply seq_NoDup].
  intros i j _ _ H. apply (lattice_point_inj s); assumption.
Qed.

(** X1. Whatever value [po >= 1] the call of [cbrt] returned and whatever
    the position matrix held before, [init_grid] leaves in column [i] the
    digits of [i] in base [s = (int)po]: [(i mod s, (i / s) mod s, i / s^2)],
    the x digit first, the z digit unbounded. *)
Theorem init_grid_lattice (po : R) (mp : MatrixXd) :
  1 <= po -> po <= INT_MAX ->
  snd (init_grid_from po mp) =
  map (lattice_point (trunc po)) (seq 0 (length mp)).
Proof. intros Hpo _. exact (init_grid_from_closed po mp Hpo). Qed.

Lemma init_grid_lattice_witness :
  snd (init_grid_from (5 / 2) (repeat vzero 5)) =
  map (lattice_point (trunc (5 / 2))) (seq 0 5).
Proof.
  apply (init_grid_lattice (5 / 2) (repeat vzero 5)); unfold INT_MAX; lra.
Defined.

(** X2. Whatever value [po >= 1] the call of [cbrt] returned, and whatever
    the number of particles, cube or not, [init_grid] never puts two
    particles on the same point. *)
Theorem init_grid_no_collision (po : R) (mp : MatrixXd) :
  1 <= po -> po <= INT_MAX ->
  NoDup (snd (init_grid_from po mp)).
Proof.
  intros Hpo _. rewrite (init_grid_from_closed po mp Hpo).
  apply lattice_NoDup. pose proof (trunc_pos po Hpo). lia.
Qed.

Lemma init_grid_no_collision_witness :
  NoDup (snd (init_grid_from (5 / 2) (repeat vzero 5))).
Proof.
  apply (init_grid_no_collision (5 / 2) (repeat vzero 5));
    unfold INT_MAX; lra.
Defined.

(** X3. For [N = k^3] particles, [k >= 1], and a value [po] returned by
    [cbrt] with [(int)po = k]: [init_grid] fills the matrix with the
    lattice of side [k], particle [a + k b + k^2 c] at [(a, b, c)], no two
    particles on one point, the points being exactly those with the three
    coordinates among [0 .. k-1]; and it prints nothing exactly when [po]
    is [k] itself, the line "Error: Wrong size of particles." otherwise. *)
Theorem init_grid_cube (k : nat) (po : R) (mp : MatrixXd) :
  (1 <= k)%nat ->
  length mp = (k * k * k)%nat ->
  1 <= po ->
  trunc po = Z.of_nat k ->
  let r := snd (init_grid_from po mp) in
  (forall a b c, (a < k)%nat -> (b < k)%nat -> (c < k)%nat ->
     col r (a + k * b + k * k * c) = mkVec (INR a) (INR b) (INR c)) /\
  NoDup r /\
  (forall v, In v r <->
     exists a b c, (a < k)%nat /\ (b < k)%nat /\ (c < k)%nat /\
                   v = mkVec (INR a) (INR b) (INR c)) /\
  (po = INR k -> fst (init_grid_from po mp) = []) /\
  (po <> INR k -> fst (init_grid_from po mp) = [EPrint wrong_size]).
Proof.
  intros Hk Hlen Hpo Hside r.
  assert (Hr : r = map (lattice_point (Z.of_nat k)) (seq 0 (k * k * k))).
  { unfold r. rewrite init_grid_from_closed, Hside, Hlen by exact Hpo.
    reflexivity. }
  assert (Hidx : forall a b c, (a < k)%nat -> (b < k)%nat -> (c < k)%nat ->
                 (a + k * b + k * k * c < k * k * k)%nat).
  { intros a b c Ha Hb Hc. nia. }
  assert (Hout : fst (init_grid_from po mp) =
                 if Reqb (po - INR k) 0 then [] else [EPrint wrong_size]).
  { unfold init_grid_from, fmod1. cbv zeta. cbn [fst].
    rewrite Hside, <- INR_IZR_INZ. reflexivity. }
  split; [|split; [|split; [|split]]].
  - intros a b c Ha Hb Hc. rewrite Hr. unfold col.
    rewrite (nth_indep _ vzero (lattice_point (Z.of_nat k) 0))
      by (rewrite length_map, length_seq; apply Hidx; assumption).
    rewrite (map_nth (lattice_point (Z.of_nat k))).
    rewrite seq_nth by (apply Hidx; assumption).
    apply lattice_point_digits; assumption.
  - rewrite Hr. apply lattice_NoDup. lia.
  - intros v. rewrite Hr, in_map_iff. split.
    + intros [i [Hv Hi]]. apply in_seq in Hi.
      destruct (digits_exist (Z.of_nat k) (Z.of_nat i) ltac:(lia) ltac:(lia))
        as [Ha [Hb [Hc Hd]]].
      set (a := (Z.of_nat i mod Z.of_nat k)%Z) in *.
      set (b := ((Z.of_nat i / Z.of_nat k) mod Z.of_nat k)%Z) in *.
      set (c := (Z.of_nat i / (Z.of_nat k * Z.of_nat k))%Z) in *.
      assert (Hck : (c < Z.of_nat k)%Z).
      { unfold c. apply Z.div_lt_upper_bound; nia. }
      exists (Z.to_nat a), (Z.to_nat b), (Z.to_nat c).
      split; [lia|]. split; [lia|]. split; [lia|].
      rewrite <- Hv. unfold lattice_point. cbv zeta. fold a b c.
      rewrite !INR_IZR_INZ, !Z2Nat.id by lia. reflexivity.
    + intros [a [b [c [Ha [Hb [Hc ->]]]]]].
      exists (a + k * b + k * k * c)%nat. split.
      * apply lattice_point_digits; assumption.
      * apply in_seq. pose proof (Hidx a b c Ha Hb Hc). lia.
  - intros E. rewrite Hout. unfold Reqb.
    destruct (Req_dec_T (po - INR k) 0) as [_|H]; [reflexivity|].
    exfalso. apply H. lra.
  - intros E. rewrite Hout. unfold Reqb.
    destruct (Req_dec_T (po - INR k) 0) as [H|_]; [|reflexivity].
    exfalso. apply E. lra.
Qed.

Lemma init_grid_cube_witness :
  let mp := repeat (mkVec 7 7 7) 27 in
  col (snd (init_grid_from 3 mp)) 14 = mkVec (INR 2) (INR 1) (INR 1) /\
  NoDup (snd (init_grid_from 3 mp)) /\
  fst (init_grid_from 3 mp) = [].
Proof.
  intros mp.
  assert (H3 : trunc 3 = Z.of_nat 3).
  { replace 3 with (INR 3) by (simpl; ring). apply trunc_INR. }
  destruct (init_grid_cube 3 3 mp) as [H1 [H2 [_ [H4 _]]]].
  - lia.
  - reflexivity.
  - lra.
  - exact H3.
  - split; [apply (H1 2%nat 1%nat 1%nat); lia|].
    split; [exact H2|]. apply H4. simpl. ring.
Defined.

(** ** The velocity sampler *)

Lemma velocity_loop_closed (draws : nat -> R) (k : nat) (mv : MatrixXd) :
  for_loop k
    (fun pi st =>
       let '(mv, k) := st in
       (set_col pi (mkVec (draws k) (draws (k + 1)%nat) (draws (k + 2)%nat))
          mv,
        (k + 3)%nat))
    (mv, O) =
  (for_loop k
     (fun pi m =>
        set_col pi
          (mkVec (draws (3 * pi)%nat) (draws (3 * pi + 1)%nat)
             (draws (3 * pi + 2)%nat)) m)
     mv,
   (3 * k)%nat).
Proof.
  induction k as [|k IH]; [reflexivity|].
  rewrite !for_loop_S, IH. f_equal. lia.
Qed.

Lemma init_velocities_closed (draws : nat -> R) (mv : MatrixXd) :
  init_velocities draws mv =
  map (fun pi => mkVec (draws (3 * pi)%nat) (draws (3 * pi + 1)%nat)
                   (draws (3 * pi + 2)%nat))
      (seq 0 (length mv)).
Proof.
  unfold init_velocities. rewrite velocity_loop_closed. cbn [fst].
  apply (overwrite_loop
           (fun pi => mkVec (draws (3 * pi)%nat) (draws (3 * pi + 1)%nat)
                        (draws (3 * pi + 2)%nat))).
Qed.

(** X4. [init_velocities] overwrites every column, whatever it held:
    particle [pi] gets the draws number [3 pi], [3 pi + 1] and [3 pi + 2]
    of the generator as its x, y and z velocity. *)
Theorem init_velocities_draws (draws : nat -> R) (mv : MatrixXd) :
  init_velocities draws mv =
  map (fun pi => mkVec (draws (3 * pi)%nat) (draws (3 * pi + 1)%nat)
                   (draws (3 * pi + 2)%nat))
      (seq 0 (length mv)).
Proof. exact (init_velocities_closed draws mv). Qed.

(** ** The force engine as a function of the positions *)

Lemma calc_accel_closed (mp ma : MatrixXd) :
  length ma = length mp ->
  calc_accel mp ma = map (accel_of mp) (seq 0 (length mp)).
Proof.
  intros Hlen. destruct (calc_accel_cols mp ma) as [Hl Hc].
  apply (nth_ext _ _ vzero (accel_of mp 0)).
  - rewrite Hl, length_map, length_seq. exact Hlen.
  - intros i Hi. rewrite Hl, Hlen in Hi.
    fold (col (calc_accel mp ma) i). rewrite Hc, Hlen.
    apply Nat.ltb_lt in Hi. rewrite Hi. simpl.
    apply Nat.ltb_lt in Hi.
    rewrite (map_nth (accel_of mp)), seq_nth by exact Hi. reflexivity.
Qed.

(** X5. For acceleration matrices of the shape of the position matrix,
    [calc_accel] is a function of the positions alone: what the
    acceleration matrix held before does not matter, and calling it again
    on its own result changes nothing. *)
Theorem calc_accel_pure (mp ma ma' : MatrixXd) :
  length ma = length mp ->
  length ma' = length mp ->
  calc_accel mp ma = calc_accel mp ma' /\
  calc_accel mp (calc_accel mp ma) = calc_accel mp ma.
Proof.
  intros H H'. split.
  - rewrite !calc_accel_closed by assumption. reflexivity.
  - rewrite (calc_accel_closed mp (calc_accel mp ma)).
    + symmetry. apply calc_accel_closed. exact H.
    + destruct (calc_accel_cols mp ma) as [Hl _]. congruence.
Qed.

Lemma calc_accel_pure_witness :
  let mp := [mkVec 0 0 0; mkVec 1 0 0] in
  calc_accel mp [vzero; vzero] = calc_accel mp [mkVec 1 2 3; mkVec 4 5 6] /\
  calc_accel mp (calc_accel mp [vzero; vzero]) = calc_accel mp [vzero; vzero].
Proof.
  intros mp.
  apply (calc_accel_pure mp [vzero; vzero] [mkVec 1 2 3; mkVec 4 5 6]);
    reflexivity.
Defined.

(** ** The force between two particles *)

Lemma norm_vsub_sym (p q : vec3) : norm (vsub p q) = norm (vsub q p).
Proof. unfold norm, vsub; simpl. f_equal. ring. Qed.

Lemma norm_vscale (k : R) (v : vec3) : norm (vscale k v) = Rabs k * norm v.
Proof.
  unfold norm, vscale; simpl.
  replace (k * vx v * (k * vx v) + k * vy v * (k * vy v) +
           k * vz v * (k * vz v))
    with (k² * (vx v * vx v + vy v * vy v + vz v * vz v))
    by (unfold Rsqr; ring).
  rewrite sqrt_mult.
  - rewrite sqrt_Rsqr_abs. reflexivity.
  - apply Rle_0_sqr.
  - nra.
Qed.

(** X6. For two particles at different places, the contribution that the
    code computes for the second one with the first as partner is the
    negation of the one it computes for the first with the second as
    partner. *)
Theorem pair_force_antisymmetric (p q : vec3) :
  0 < norm (vsub q p) ->
  pair_force q p = vneg (pair_force p q).
Proof.
  intros _. unfold pair_force. cbv zeta.
  rewrite (norm_vsub_sym p q).
  unfold vscale, vneg, vsub; simpl. f_equal; ring.
Qed.

Lemma pair_force_antisymmetric_witness :
  pair_force (mkVec 1 0 0) (mkVec 0 0 0) =
  vneg (pair_force (mkVec 0 0 0) (mkVec 1 0 0)).
Proof.
  apply pair_force_antisymmetric.
  rewrite vsub_origin, norm_on_x_axis; lra.
Defined.

(** X7. At separation [r > 0] the force that the code computes has norm
    [|24 eps (2 (sigma/r)^7 - (sigma/r)^13)|]. *)
Theorem pair_force_norm (p q : vec3) :
  0 < norm (vsub q p) ->
  norm (pair_force p q) =
  Rabs (24 * EPSILON *
        (2 * (SIGMA / norm (vsub q p)) ^ 7 - (SIGMA / norm (vsub q p)) ^ 13)).
Proof.
  intros Hr. rewrite pair_force_closed_form, !norm_vscale.
  unfold code_force_factor.
  rewrite (Rabs_pos_eq (/ norm (vsub q p)))
    by (left; apply Rinv_0_lt_compat; exact Hr).
  rewrite Rinv_l by lra. ring.
Qed.

Lemma pair_force_norm_witness :
  norm (pair_force (mkVec 0 0 0) (mkVec 1 0 0)) =
  Rabs (24 * EPSILON *
        (2 * (SIGMA / norm (vsub (mkVec 1 0 0) (mkVec 0 0 0))) ^ 7 -
         (SIGMA / norm (vsub (mkVec 1 0 0) (mkVec 0 0 0))) ^ 13)).
Proof.
  apply pair_force_norm.
  rewrite vsub_origin, norm_on_x_axis; lra.
Defined.

(** X8. At separation [r > 0] the force that the code computes for a
    particle is a multiple [k] of the vector from the particle to its
    partner, and [k] is positive (attraction) exactly when
    [sigma^6 < 2 r^6], zero exactly when [sigma^6 = 2 r^6], and negative
    (repulsion) exactly when [2 r^6 < sigma^6]: the force changes sign at
    [r = sigma / 2^(1/6)]. *)
Theorem pair_force_sign (p q : vec3) :
  0 < norm (vsub q p) ->
  exists k : R,
    pair_force p q = vscale k (vsub q p) /\
    (0 < k <-> SIGMA ^ 6 < 2 * norm (vsub q p) ^ 6) /\
    (k = 0 <-> SIGMA ^ 6 = 2 * norm (vsub q p) ^ 6) /\
    (k < 0 <-> 2 * norm (vsub q p) ^ 6 < SIGMA ^ 6).
Proof.
  intros Hr. set (r := norm (vsub q p)) in *.
  exists (24 * EPSILON * (2 * (/ r * SIGMA) ^ 7 - (/ r * SIGMA) ^ 13) * / r).
  split; [reflexivity|].
  set (c := 24 * SIGMA ^ 7 * / r ^ 14).
  assert (Hc : 0 < c).
  { unfold c, SIGMA. apply Rmult_lt_0_compat; [simpl; lra|].
    apply Rinv_0_lt_compat, pow_lt, Hr. }
  assert (Hk : 24 * EPSILON * (2 * (/ r * SIGMA) ^ 7 - (/ r * SIGMA) ^ 13) * / r
               = c * (2 * r ^ 6 - SIGMA ^ 6)).
  { unfold c, EPSILON. field. lra. }
  rewrite Hk. set (d := 2 * r ^ 6 - SIGMA ^ 6).
  assert (Hd : 2 * r ^ 6 = d + SIGMA ^ 6) by (unfold d; ring).
  rewrite Hd. clearbody d c.
  split; [|split]; split; intros H; nra.
Qed.

Lemma pair_force_sign_witness :
  exists k : R,
    pair_force (mkVec 0 0 0) (mkVec 1 0 0) =
      vscale k (vsub (mkVec 1 0 0) (mkVec 0 0 0)) /\
    (0 < k <-> SIGMA ^ 6 < 2 * norm (vsub (mkVec 1 0 0) (mkVec 0 0 0)) ^ 6).
Proof.
  destruct (pair_force_sign (mkVec 0 0 0) (mkVec 1 0 0)) as [k [H1 [H2 _]]].
  - rewrite vsub_origin, norm_on_x_axis; lra.
  - exists k. split; [exact H1 | exact H2].
Defined.

(** ** The boundary handler as a reflection *)

Lemma reflect_involutive (mp : MatrixXd) (left right top bottom front back : R)
    (pi : nat) (v : vec3) :
  reflect mp left right top bottom front back pi
    (reflect mp left right top bottom front back pi v) = v.
Proof.
  unfold reflect. destruct v as [a b c]. simpl.
  destruct (_ || _), (_ || _), (_ || _); f_equal; ring.
Qed.

Lemma reflect_norm (mp : MatrixXd) (left right top bottom front back : R)
    (pi : nat) (v : vec3) :
  norm (reflect mp left right top bottom front back pi v) = norm v.
Proof.
  unfold reflect, norm. destruct v as [a b c]. simpl.
  destruct (_ || _), (_ || _), (_ || _); f_equal; ring.
Qed.

(** X9. In closed mode, for matrices of the same shape, the handler keeps
    the speed of every particle: the norm of every velocity column is the
    same before and after. *)
Theorem border_handling_keeps_speed (mp mv : MatrixXd)
    (left right top bottom front back : R) (pi : nat) :
  length mv = length mp ->
  norm (col (snd (border_handling mp mv true left right top bottom front back))
          pi) =
  norm (col mv pi).
Proof.
  intros Hlen.
  destruct (border_handling_cols mp mv left right top bottom front back Hlen)
    as [_ [Hl Hc]].
  cbv zeta in Hl, Hc.
  destruct (le_lt_dec (length mp) pi) as [Hout|Hin].
  - rewrite !col_out_of_range by lia. reflexivity.
  - rewrite Hc by exact Hin. apply reflect_norm.
Qed.

Lemma border_handling_keeps_speed_witness :
  norm (col (snd (border_handling [mkVec 3 1 1] [mkVec 5 6 7] true 0 2 2 0 0 2))
          0) =
  norm (col [mkVec 5 6 7] 0).
Proof.
  apply (border_handling_keeps_speed [mkVec 3 1 1] [mkVec 5 6 7]).
  reflexivity.
Defined.

(** X10. In closed mode, for matrices of the same shape, handling the same
    positions twice gives back the velocities the first call started
    from. *)
Theorem border_handling_twice (mp mv : MatrixXd)
    (left right top bottom front back : R) :
  length mv = length mp ->
  border_handling mp
    (snd (border_handling mp mv true left right top bottom front back))
    true left right top bottom front back = (mp, mv).
Proof.
  intros Hlen.
  destruct (border_handling_cols mp mv left right top bottom front back Hlen)
    as [_ [Hl Hc]].
  cbv zeta in Hl, Hc.
  set (mv1 := snd (border_handling mp mv true left right top bottom front
                     back)) in *.
  assert (Hlen1 : length mv1 = length mp) by congruence.
  destruct (border_handling_cols mp mv1 left right top bottom front back
              Hlen1) as [Hp [Hl2 Hc2]].
  cbv zeta in Hp, Hl2, Hc2.
  rewrite (surjective_pairing (border_handling mp mv1 true left right top
                                 bottom front back)).
  f_equal; try exact Hp.
  apply matrix_ext; [congruence|].
  intros i. destruct (le_lt_dec (length mp) i) as [Hout|Hin].
  - rewrite !col_out_of_range by lia. reflexivity.
  - rewrite Hc2, Hc by exact Hin. apply reflect_involutive.
Qed.

Lemma border_handling_twice_witness :
  border_handling [mkVec 3 1 1]
    (snd (border_handling [mkVec 3 1 1] [mkVec 5 6 7] true 0 2 2 0 0 2))
    true 0 2 2 0 0 2 = ([mkVec 3 1 1], [mkVec 5 6 7]).
Proof.
  apply (border_handling_twice [mkVec 3 1 1] [mkVec 5 6 7]).
  reflexivity.
Defined.

Lemma border_handling_as_invoked_flips_y_witness :
  vy (col (snd (border_handling [mkVec (1 / 2) (1 / 2) (1 / 2)] [mkVec 0 1 0]
                  true 0 1 0 1 0 1)) 0) =
  - vy (col [mkVec 0 1 0] 0).
Proof.
  apply (border_handling_as_invoked_flips_y
           [mkVec (1 / 2) (1 / 2) (1 / 2)] [mkVec 0 1 0] 1 0).
  - lra.
  - reflexivity.
  - simpl. lia.
Defined.

(** ** The number of steps and the shape of the state *)

Lemma ceil_bounds (x : R) : IZR (ceil x) - 1 < x <= IZR (ceil x).
Proof.
  unfold ceil. destruct (base_Int_part (- x)) as [H1 H2].
  rewrite opp_IZR. lra.
Qed.

(** The turns of the loop [for (int ts = 0; ts < tts; ts++)]. *)
Lemma loop_turns (tts : R) (ts : nat) :
  (ts < Z.to_nat (ceil tts))%nat <-> INR ts < tts.
Proof.
  destruct (ceil_bounds tts) as [H1 H2]. rewrite INR_IZR_INZ. split.
  - intros H.
    assert (Hz : (Z.of_nat ts <= ceil tts - 1)%Z) by lia.
    apply IZR_le in Hz. rewrite minus_IZR in Hz. lra.
  - intros H.
    assert (Hz : (Z.of_nat ts < ceil tts)%Z) by (apply lt_IZR; lra).
    lia.
Qed.

Lemma length_madd (a b : MatrixXd) :
  length (madd a b) = Nat.min (length a) (length b).
Proof.
  revert b; induction a as [|x a IH]; intros [|y b]; simpl; auto.
Qed.

Lemma length_mscale (k : R) (a : MatrixXd) : length (mscale k a) = length a.
Proof. apply length_map. Qed.

Lemma length_calc_accel (mp ma : MatrixXd) :
  length (calc_accel mp ma) = length ma.
Proof. apply calc_accel_cols. Qed.

Lemma length_border_handling (mp mv : MatrixXd)
    (left right top bottom front back : R) :
  length mv = length mp ->
  length (snd (border_handling mp mv true left right top bottom front back)) =
  length mv.
Proof.
  intros H.
  apply (border_handling_cols mp mv left right top bottom front back H).
Qed.

Lemma verlet_step_shape (td po : R) (serialize : bool) (path : string)
    (ts n : nat) (s : system) :
  length (sys_mp s) = n -> length (sys_mv s) = n -> length (sys_ma s) = n ->
  let s' := verlet_step td po serialize path ts s in
  length (sys_mp s') = n /\ length (sys_mv s') = n /\ length (sys_ma s') = n.
Proof.
  intros Hp Hv Ha s'.
  destruct (verlet_step_ma td po serialize path ts s) as [Emp Ema].
  pose proof (verlet_step_mv td po serialize path ts s) as Emv.
  cbv zeta in Emp, Ema, Emv. fold s' in Emp, Ema, Emv.
  assert (Lp : length (sys_mp s') = n).
  { rewrite Emp, !length_madd, !length_mscale. lia. }
  assert (La : length (sys_ma s') = n).
  { rewrite Ema, length_madd, length_calc_accel. lia. }
  split; [exact Lp|]. split; [|exact La].
  rewrite Emv, length_border_handling;
    rewrite length_madd, !length_mscale; lia.
Qed.

Lemma verlet_loop_shape (td po : R) (serialize : bool) (path : string)
    (k n : nat) (s : system) :
  length (sys_mp s) = n -> length (sys_mv s) = n -> length (sys_ma s) = n ->
  let s' := for_loop k (verlet_step td po serialize path) s in
  length (sys_mp s') = n /\ length (sys_mv s') = n /\ length (sys_ma s') = n.
Proof.
  intros Hp Hv Ha. induction k as [|k [IHp [IHv IHa]]].
  - simpl. auto.
  - cbv zeta. rewrite for_loop_S.
    apply verlet_step_shape; assumption.
Qed.

Lemma simulate_unfold (mp mv ma : MatrixXd) (td tts : R) (serialize : bool)
    (tbuf : string) :
  simulate mp mv ma td tts serialize tbuf =
  for_loop (Z.to_nat (ceil tts))
    (verlet_step td (cbrt (INR (length mp))) serialize
       (if serialize then ("mds-" ++ tbuf ++ "/")%string else EmptyString))
    (mkSystem mp mv (calc_accel mp ma)
       ((if serialize then [EMkdir ("mds-" ++ tbuf ++ "/")%string] else []) ++
        (if Reqb (fmod1 (cbrt (INR (length mp)))) 0 then []
         else [EPrint wrong_size]))).
Proof.
  unfold simulate, init_serialize.
  destruct serialize; cbv zeta beta iota;
    destruct (Reqb (fmod1 (cbrt (INR (length mp)))) 0); reflexivity.
Qed.

(** X11. When the three matrices have the same number [N] of columns and
    the number of steps is within the range of the [int] counter,
    [simulate] returns three matrices of [N] columns, whatever the
    timestep. *)
Theorem simulate_keeps_shape (mp mv ma : MatrixXd) (td tts : R)
    (serialize : bool) (tbuf : string) :
  length mv = length mp ->
  length ma = length mp ->
  tts <= INT_MAX ->
  let s := simulate mp mv ma td tts serialize tbuf in
  length (sys_mp s) = length mp /\
  length (sys_mv s) = length mp /\
  length (sys_ma s) = length mp.
Proof.
  intros Hv Ha _. cbv zeta. rewrite simulate_unfold.
  apply verlet_loop_shape; simpl.
  - reflexivity.
  - exact Hv.
  - rewrite length_calc_accel. exact Ha.
Qed.

Lemma simulate_keeps_shape_witness :
  let s := simulate [mkVec 0 0 0; mkVec 1 0 0] [vzero; vzero] [vzero; vzero]
             TIMESTEP 3 false EmptyString in
  length (sys_mp s) = 2%nat /\ length (sys_mv s) = 2%nat /\
  length (sys_ma s) = 2%nat.
Proof.
  apply (simulate_keeps_shape [mkVec 0 0 0; mkVec 1 0 0] [vzero; vzero]
           [vzero; vzero] TIMESTEP 3 false EmptyString);
    try reflexivity.
  unfold INT_MAX. lra.
Defined.

Lemma no_turn (tts : R) : tts <= 0 -> Z.to_nat (ceil tts) = 0%nat.
Proof.
  intros Ht. destruct (Z.to_nat (ceil tts)) as [|n] eqn:E; [reflexivity|].
  assert (H : (0 < Z.to_nat (ceil tts))%nat) by lia.
  apply loop_turns in H. simpl in H. lra.
Qed.

(** X12. With a number of steps that is zero or negative the loop of
    [simulate] is not entered, with or without serialization: positions
    and velocities come back as they were, the acceleration matrix is the
    one [calc_accel] computes on the initial positions, and no snapshot is
    written. *)
Theorem simulate_no_steps (mp mv ma : MatrixXd) (td tts : R)
    (serialize : bool) (tbuf : string) :
  tts <= 0 ->
  let s := simulate mp mv ma td tts serialize tbuf in
  sys_mp s = mp /\ sys_mv s = mv /\ sys_ma s = calc_accel mp ma /\
  (forall path count rows, ~ In (EWrite path count rows) (sys_out s)).
Proof.
  intros Ht. cbv zeta. rewrite simulate_unfold, (no_turn tts Ht).
  cbn [for_loop seq fold_left sys_mp sys_mv sys_ma sys_out].
  repeat split.
  intros path count rows Hin. apply in_app_or in Hin.
  destruct Hin as [Hin|Hin].
  - destruct serialize; simpl in Hin; [destruct Hin as [H|H]|];
      try discriminate; contradiction.
  - destruct (Reqb _ 0); simpl in Hin; [|destruct Hin as [H|H]];
      try discriminate; contradiction.
Qed.

Lemma simulate_no_steps_witness :
  let s := simulate [mkVec 0 0 0] [mkVec 1 2 3] [vzero] TIMESTEP (-1) true
             "t" in
  sys_mp s = [mkVec 0 0 0] /\ sys_mv s = [mkVec 1 2 3] /\
  sys_ma s = calc_accel [mkVec 0 0 0] [vzero] /\
  (forall path count rows, ~ In (EWrite path count rows) (sys_out s)).
Proof.
  apply (simulate_no_steps [mkVec 0 0 0] [mkVec 1 2 3] [vzero] TIMESTEP (-1)
           true "t").
  lra.
Defined.

(** ** Runs of different lengths, with and without snapshots *)

Lemma simulate_zero (mp mv ma : MatrixXd) (td : R) (serialize : bool)
    (tbuf : string) :
  simulate mp mv ma td 0 serialize tbuf =
  mkSystem mp mv (calc_accel mp ma)
    ((if serialize then [EMkdir ("mds-" ++ tbuf ++ "/")%string] else []) ++
     (if Reqb (fmod1 (cbrt (INR (length mp)))) 0 then []
      else [EPrint wrong_size])).
Proof.
  rewrite simulate_unfold.
  replace (ceil 0) with 0%Z by (symmetry; exact (ceil_INR 0)).
  reflexivity.
Qed.

Lemma simulate_nat_steps (mp mv ma : MatrixXd) (td : R) (n : nat)
    (serialize : bool) (tbuf : string) :
  simulate mp mv ma td (INR n) serialize tbuf =
  for_loop n
    (verlet_step td (cbrt (INR (length mp))) serialize
       (if serialize then ("mds-" ++ tbuf ++ "/")%string else EmptyString))
    (simulate mp mv ma td 0 serialize tbuf).
Proof.
  rewrite simulate_zero, simulate_unfold, ceil_INR, Nat2Z.id. reflexivity.
Qed.

Lemma verlet_step_out_gen (td po : R) (serialize : bool) (path : string)
    (ts : nat) (s : system) :
  sys_out (verlet_step td po serialize path ts s) =
  (sys_out s ++
   if serialize
   then [EWrite path ts (sys_mp (verlet_step td po serialize path ts s))]
   else [])%list.
Proof.
  destruct s as [mp mv ma out]. destruct serialize.
  - reflexivity.
  - unfold verlet_step, border_handling. cbn [sys_out].
    rewrite app_nil_r. reflexivity.
Qed.

Lemma verlet_loop_out_gen (td po : R) (serialize : bool) (path : string)
    (n : nat) (s : system) :
  sys_out (for_loop n (verlet_step td po serialize path) s) =
  (sys_out s ++
   if serialize
   then map (fun ts =>
               EWrite path ts
                 (sys_mp (for_loop (S ts)
                            (verlet_step td po serialize path) s)))
            (seq 0 n)
   else [])%list.
Proof.
  induction n as [|n IH].
  - destruct serialize; simpl; rewrite app_nil_r; reflexivity.
  - rewrite for_loop_S at 1. rewrite verlet_step_out_gen, IH.
    destruct serialize.
    + rewrite seq_S, map_app, <- app_assoc. simpl.
      rewrite <- for_loop_S. reflexivity.
    + rewrite !app_nil_r. reflexivity.
Qed.

(** The whole output of [simulate]: that of a run of no step, then, with
    serialization, the snapshots of the turns in order, each holding the
    positions that a run of one more step than its number ends with. *)
Lemma simulate_out_closed (mp mv ma : MatrixXd) (td tts : R)
    (serialize : bool) (tbuf : string) :
  sys_out (simulate mp mv ma td tts serialize tbuf) =
  (sys_out (simulate mp mv ma td 0 serialize tbuf) ++
   if serialize
   then map (fun ts =>
               EWrite ("mds-" ++ tbuf ++ "/")%string ts
                 (sys_mp (simulate mp mv ma td (INR (S ts)) serialize tbuf)))
            (seq 0 (Z.to_nat (ceil tts)))
   else [])%list.
Proof.
  rewrite (simulate_unfold mp mv ma td tts), verlet_loop_out_gen.
  rewrite simulate_zero. cbn [sys_out].
  f_equal. destruct serialize; [|reflexivity].
  apply map_ext. intros ts.
  rewrite (simulate_nat_steps mp mv ma td (S ts)), simulate_zero.
  reflexivity.
Qed.

Lemma simulate_ceil (mp mv ma : MatrixXd) (td tts : R) (serialize : bool)
    (tbuf : string) :
  simulate mp mv ma td tts serialize tbuf =
  simulate mp mv ma td (INR (Z.to_nat (ceil tts))) serialize tbuf.
Proof.
  rewrite (simulate_unfold mp mv ma td tts),
    (simulate_unfold mp mv ma td (INR (Z.to_nat (ceil tts)))).
  rewrite ceil_INR, Nat2Z.id. reflexivity.
Qed.

Lemma turns_in_seq (tts : R) (ts : nat) :
  In ts (seq 0 (Z.to_nat (ceil tts))) <-> INR ts < tts.
Proof. rewrite in_seq, <- loop_turns. lia. Qed.

(** X13. With serialization and a number of steps within the range of the
    [int] counter, the output of [simulate] is the output of a run of no
    step (the directory made, then the complaint about the size if there
    is one) followed by one snapshot for every [ts = 0, 1, ...] below
    [tts], in this order; the snapshot numbered [ts] holds the positions
    that a run of [ts + 1] steps ends with. *)
Theorem simulate_snapshots (mp mv ma : MatrixXd) (td tts : R) (tbuf : string) :
  tts <= INT_MAX ->
  sys_out (simulate mp mv ma td tts true tbuf) =
  (sys_out (simulate mp mv ma td 0 true tbuf) ++
   map (fun ts =>
          EWrite ("mds-" ++ tbuf ++ "/")%string ts
            (sys_mp (simulate mp mv ma td (INR (S ts)) true tbuf)))
       (seq 0 (Z.to_nat (ceil tts))))%list /\
  (forall ts, In ts (seq 0 (Z.to_nat (ceil tts))) <-> INR ts < tts).
Proof.
  intros _. split.
  - exact (simulate_out_closed mp mv ma td tts true tbuf).
  - exact (turns_in_seq tts).
Qed.

Lemma simulate_snapshots_witness :
  sys_out (simulate [mkVec 0 0 0] [mkVec 1 2 3] [vzero] TIMESTEP 2 true "t") =
  (sys_out (simulate [mkVec 0 0 0] [mkVec 1 2 3] [vzero] TIMESTEP 0 true "t")
   ++
   map (fun ts =>
          EWrite "mds-t/" ts
            (sys_mp (simulate [mkVec 0 0 0] [mkVec 1 2 3] [vzero] TIMESTEP
                       (INR (S ts)) true "t")))
       (seq 0 (Z.to_nat (ceil 2))))%list.
Proof.
  apply (simulate_snapshots [mkVec 0 0 0] [mkVec 1 2 3] [vzero] TIMESTEP 2
           "t").
  unfold INT_MAX. lra.
Defined.

Lemma verlet_step_physics (td po : R) (ser ser' : bool) (path path' : string)
    (ts ts' : nat) (s s' : system) :
  sys_mp s = sys_mp s' -> sys_mv s = sys_mv s' -> sys_ma s = sys_ma s' ->
  sys_mp (verlet_step td po ser path ts s) =
    sys_mp (verlet_step td po ser' path' ts' s') /\
  sys_mv (verlet_step td po ser path ts s) =
    sys_mv (verlet_step td po ser' path' ts' s') /\
  sys_ma (verlet_step td po ser path ts s) =
    sys_ma (verlet_step td po ser' path' ts' s').
Proof.
  intros Hp Hv Ha.
  destruct (verlet_step_ma td po ser path ts s) as [E1 E2].
  destruct (verlet_step_ma td po ser' path' ts' s') as [E1' E2'].
  pose proof (verlet_step_mv td po ser path ts s) as E3.
  pose proof (verlet_step_mv td po ser' path' ts' s') as E3'.
  cbv zeta in *.
  assert (Lp : sys_mp (verlet_step td po ser path ts s) =
               sys_mp (verlet_step td po ser' path' ts' s')).
  { rewrite E1, E1', Hp, Hv, Ha. reflexivity. }
  assert (La : sys_ma (verlet_step td po ser path ts s) =
               sys_ma (verlet_step td po ser' path' ts' s')).
  { rewrite E2, E2', Lp, Ha. reflexivity. }
  split; [exact Lp|]. split; [|exact La].
  rewrite E3, E3', Lp, La, Hv. reflexivity.
Qed.

Lemma verlet_loop_physics (td po : R) (ser ser' : bool) (path path' : string)
    (k : nat) (s s' : system) :
  sys_mp s = sys_mp s' -> sys_mv s = sys_mv s' -> sys_ma s = sys_ma s' ->
  sys_mp (for_loop k (verlet_step td po ser path) s) =
    sys_mp (for_loop k (verlet_step td po ser' path') s') /\
  sys_mv (for_loop k (verlet_step td po ser path) s) =
    sys_mv (for_loop k (verlet_step td po ser' path') s') /\
  sys_ma (for_loop k (verlet_step td po ser path) s) =
    sys_ma (for_loop k (verlet_step td po ser' path') s').
Proof.
  intros Hp Hv Ha. induction k as [|k [IHp [IHv IHa]]].
  - simpl. auto.
  - rewrite !for_loop_S. apply verlet_step_physics; assumption.
Qed.

(** X14. Serialization does not touch the physics: with and without it,
    and whatever the time stamp, [simulate] ends with the same positions,
    velocities and accelerations. *)
Theorem simulate_serialize_irrelevant (mp mv ma : MatrixXd) (td tts : R)
    (tbuf tbuf' : string) :
  let s := simulate mp mv ma td tts true tbuf in
  let s' := simulate mp mv ma td tts false tbuf' in
  sys_mp s = sys_mp s' /\ sys_mv s = sys_mv s' /\ sys_ma s = sys_ma s'.
Proof.
  cbv zeta. rewrite !simulate_unfold.
  apply verlet_loop_physics; reflexivity.
Qed.

Lemma simulate_ma_irrelevant (mp mv ma ma' : MatrixXd) (td tts : R)
    (serialize : bool) (tbuf : string) :
  length ma = length mp ->
  length ma' = length mp ->
  simulate mp mv ma td tts serialize tbuf =
  simulate mp mv ma' td tts serialize tbuf.
Proof.
  intros H H'. rewrite !simulate_unfold.
  rewrite (calc_accel_closed mp ma H), (calc_accel_closed mp ma' H').
  reflexivity.
Qed.

(** X15. For acceleration matrices of the shape of the position matrix,
    the result and the output of [simulate] do not depend on what the
    acceleration matrix holds on entry. *)
Theorem simulate_ignores_initial_accel (mp mv ma ma' : MatrixXd) (td tts : R)
    (serialize : bool) (tbuf : string) :
  length ma = length mp ->
  length ma' = length mp ->
  simulate mp mv ma td tts serialize tbuf =
  simulate mp mv ma' td tts serialize tbuf.
Proof. exact (simulate_ma_irrelevant mp mv ma ma' td tts serialize tbuf). Qed.

Lemma simulate_ignores_initial_accel_witness :
  simulate [mkVec 0 0 0; mkVec 1 0 0] [vzero; vzero] [vzero; vzero]
    TIMESTEP 2 true "t" =
  simulate [mkVec 0 0 0; mkVec 1 0 0] [vzero; vzero]
    [mkVec 1 2 3; mkVec 4 5 6] TIMESTEP 2 true "t".
Proof.
  apply simulate_ignores_initial_accel; reflexivity.
Defined.

(** X16. For every input and every step, the acceleration matrix that
    [simulate] holds after [n + 1] steps is the one [calc_accel] computes
    on the positions after [n + 1] steps plus the matrix held after [n]
    steps. *)
Theorem simulate_accumulates_accel (mp mv ma : MatrixXd) (td : R) (n : nat)
    (serialize : bool) (tbuf : string) :
  let s_n := simulate mp mv ma td (INR n) serialize tbuf in
  let s_next := simulate mp mv ma td (INR (S n)) serialize tbuf in
  sys_ma s_next =
  madd (calc_accel (sys_mp s_next) (sys_ma s_n)) (sys_ma s_n).
Proof.
  cbv zeta. rewrite (simulate_steps mp mv ma td n serialize tbuf).
  apply verlet_step_ma.
Qed.

(** X17. Without serialization, and for a number of steps within the range
    of the [int] counter, [simulate] makes no directory and writes no file:
    its whole output is either nothing or the one line "Error: Wrong size
    of particles.", and it is that line whenever the number of particles
    is not a cube. *)
Theorem simulate_quiet (mp mv ma : MatrixXd) (td tts : R) (tbuf : string) :
  tts <= INT_MAX ->
  (sys_out (simulate mp mv ma td tts false tbuf) = [] \/
   sys_out (simulate mp mv ma td tts false tbuf) = [EPrint wrong_size]) /\
  (~ perfect_cube (length mp) ->
   sys_out (simulate mp mv ma td tts false tbuf) = [EPrint wrong_size]).
Proof.
  intros _.
  rewrite simulate_out_closed, simulate_zero, app_nil_r. cbn [sys_out app].
  pose proof (wrong_size_test (length mp)) as Ht.
  destruct (Reqb (fmod1 (cbrt (INR (length mp)))) 0); split.
  - left. reflexivity.
  - intros H. exfalso. apply H. apply Ht. reflexivity.
  - right. reflexivity.
  - reflexivity.
Qed.

Lemma simulate_quiet_witness :
  sys_out (simulate (repeat vzero 2) (repeat vzero 2) (repeat vzero 2)
             TIMESTEP 2 false EmptyString) = [EPrint wrong_size].
Proof.
  apply (simulate_quiet (repeat vzero 2) (repeat vzero 2) (repeat vzero 2)
           TIMESTEP 2 EmptyString).
  - unfold INT_MAX. lra.
  - exact not_perfect_cube_2.
Defined.

(** ** The program *)

Lemma length_uninitialized (junk : nat -> vec3) (pn : nat) :
  length (uninitialized junk pn) = pn.
Proof. unfold uninitialized. rewrite length_map, length_seq. reflexivity. Qed.

Lemma init_grid_length_only (m m' : MatrixXd) :
  length m = length m' -> init_grid m = init_grid m'.
Proof.
  intros H.
  rewrite (surjective_pairing (init_grid m)),
    (surjective_pairing (init_grid m')).
  rewrite !init_grid_prints, !init_grid_closed, H. reflexivity.
Qed.

(** X18. The program never depends on the memory it did not initialize:
    whatever the three matrices hold when they are allocated, a run for
    [pn] particles ends in the same state with the same output. *)
Theorem run_ignores_uninitialized (pn : nat) (td tts : R)
    (junk_p junk_v junk_a junk_p' junk_v' junk_a' : nat -> vec3)
    (draws : nat -> R) (tbuf : string) :
  run pn td tts junk_p junk_v junk_a draws tbuf =
  run pn td tts junk_p' junk_v' junk_a' draws tbuf.
Proof.
  unfold run. cbv zeta.
  rewrite (init_grid_length_only (uninitialized junk_p pn)
             (uninitialized junk_p' pn))
    by (rewrite !length_uninitialized; reflexivity).
  pose proof (init_grid_length (uninitialized junk_p' pn)) as Hl.
  rewrite length_uninitialized in Hl.
  destruct (init_grid (uninitialized junk_p' pn)) as [out mp].
  cbn [snd] in Hl.
  rewrite (init_velocities_closed draws (uninitialized junk_v pn)),
    (init_velocities_closed draws (uninitialized junk_v' pn)),
    !length_uninitialized.
  rewrite (simulate_ma_irrelevant mp _ (uninitialized junk_a pn)
             (uninitialized junk_a' pn))
    by (rewrite length_uninitialized; symmetry; exact Hl).
  reflexivity.
Qed.

Lemma run_trace_on_cube (k : nat) (td tts : R)
    (junk_p junk_v junk_a : nat -> vec3) (draws : nat -> R) (tbuf : string) :
  exists snap : nat -> MatrixXd,
    sys_out (run (k * k * k) td tts junk_p junk_v junk_a draws tbuf) =
    (info ++
     EMkdir ("mds-" ++ tbuf ++ "/")%string ::
     map (fun ts => EWrite ("mds-" ++ tbuf ++ "/")%string ts (snap ts))
         (seq 0 (Z.to_nat (ceil tts))))%list.
Proof.
  unfold run. cbv zeta.
  pose proof (init_grid_length (uninitialized junk_p (k * k * k))) as Hl.
  pose proof (init_grid_silent_on_cube k (uninitialized junk_p (k * k * k))
                (length_uninitialized junk_p (k * k * k))) as Ho.
  rewrite length_uninitialized in Hl.
  destruct (init_grid (uninitialized junk_p (k * k * k))) as [out mp].
  cbn [fst snd] in Hl, Ho. subst out.
  destruct (simulate_trace mp
              (init_velocities draws (uninitialized junk_v (k * k * k)))
              (uninitialized junk_a (k * k * k)) td tts tbuf) as [snap Hs].
  exists snap. cbn [sys_out]. rewrite Hs.
  replace (Reqb (fmod1 (cbrt (INR (length mp)))) 0) with true.
  - reflexivity.
  - symmetry. apply wrong_size_test. exists k. exact Hl.
Qed.

Lemma run_fields (pn : nat) (td tts : R) (junk_p junk_v junk_a : nat -> vec3)
    (draws : nat -> R) (tbuf : string) :
  let s := simulate (snd (init_grid (uninitialized junk_p pn)))
             (init_velocities draws (uninitialized junk_v pn))
             (uninitialized junk_a pn) td tts true tbuf in
  sys_mp (run pn td tts junk_p junk_v junk_a draws tbuf) = sys_mp s /\
  sys_out (run pn td tts junk_p junk_v junk_a draws tbuf) =
    (info ++ fst (init_grid (uninitialized junk_p pn)) ++ sys_out s)%list.
Proof.
  unfold run. cbv zeta.
  destruct (init_grid (uninitialized junk_p pn)) as [out mp].
  split; reflexivity.
Qed.

(** X19. Whatever the number of particles, for a number of steps within
    the range of the [int] counter, a run prints the two lines of [info],
    then the complaint of [init_grid] about the size if there is one,
    makes the output directory, prints the complaint of [simulate], which
    is there exactly when that of [init_grid] is, and writes one snapshot
    for every step, numbered from 0 in order, the snapshot numbered [ts]
    holding the positions that a run of [ts + 1] steps ends with.  The
    complaint is there whenever the number of particles is not a cube. *)
Theorem run_output (pn : nat) (td tts : R)
    (junk_p junk_v junk_a : nat -> vec3) (draws : nat -> R) (tbuf : string) :
  tts <= INT_MAX ->
  exists e : list event,
    (e = [] \/ e = [EPrint wrong_size]) /\
    (~ perfect_cube pn -> e = [EPrint wrong_size]) /\
    sys_out (run pn td tts junk_p junk_v junk_a draws tbuf) =
    (info ++ e ++
     EMkdir ("mds-" ++ tbuf ++ "/")%string :: e ++
     map (fun ts =>
            EWrite ("mds-" ++ tbuf ++ "/")%string ts
              (sys_mp (run pn td (INR (S ts)) junk_p junk_v junk_a draws
                         tbuf)))
         (seq 0 (Z.to_nat (ceil tts))))%list.
Proof.
  intros _.
  exists (if Reqb (fmod1 (cbrt (INR pn))) 0 then [] else [EPrint wrong_size]).
  split; [destruct (Reqb _ 0); auto|]. split.
  - intros Hc. pose proof (wrong_size_test pn) as Ht.
    destruct (Reqb (fmod1 (cbrt (INR pn))) 0); [|reflexivity].
    exfalso. apply Hc. apply Ht. reflexivity.
  - destruct (run_fields pn td tts junk_p junk_v junk_a draws tbuf)
      as [_ Hout].
    cbv zeta in Hout. rewrite Hout.
    rewrite init_grid_prints, length_uninitialized.
    rewrite simulate_out_closed, simulate_zero. cbn [sys_out].
    rewrite init_grid_length, length_uninitialized.
    rewrite <- app_assoc. cbn [app].
    apply (f_equal (app info)), (f_equal (app _)), (f_equal (cons _)),
      (f_equal (app _)).
    apply map_ext. intros ts.
    destruct (run_fields pn td (INR (S ts)) junk_p junk_v junk_a draws tbuf)
      as [Hmp _].
    cbv zeta in Hmp. rewrite Hmp. reflexivity.
Qed.

Lemma run_output_witness :
  exists e : list event,
    sys_out (run 2 TIMESTEP 1 (fun _ => vzero) (fun _ => vzero)
               (fun _ => vzero) (fun _ => 0) "t") =
    (info ++ e ++ EMkdir "mds-t/" :: e ++
     map (fun ts =>
            EWrite "mds-t/" ts
              (sys_mp (run 2 TIMESTEP (INR (S ts)) (fun _ => vzero)
                         (fun _ => vzero) (fun _ => vzero) (fun _ => 0) "t")))
         (seq 0 (Z.to_nat (ceil 1))))%list.
Proof.
  destruct (run_output 2 TIMESTEP 1 (fun _ => vzero) (fun _ => vzero)
              (fun _ => vzero) (fun _ => 0) "t") as [e [_ [_ H]]].
  - unfold INT_MAX. lra.
  - exists e. exact H.
Defined.

Lemma ceil_IZR (z : Z) : ceil (IZR z) = z.
Proof.
  unfold ceil. rewrite <- (Int_part_spec (- IZR z) (- z)).
  - lia.
  - rewrite opp_IZR. lra.
Qed.

(** X20. The program as it is compiled, with 64 particles and 1e6 steps:
    it prints the two lines of [info], makes the output directory and
    writes the snapshots numbered 0 to 999999 in order; it never prints
    "Error: Wrong size of particles.". *)
Theorem main_output (junk_p junk_v junk_a : nat -> vec3) (draws : nat -> R)
    (tbuf : string) :
  exists snap : nat -> MatrixXd,
    sys_out (main junk_p junk_v junk_a draws tbuf) =
    (info ++
     EMkdir ("mds-" ++ tbuf ++ "/")%string ::
     map (fun ts => EWrite ("mds-" ++ tbuf ++ "/")%string ts (snap ts))
         (seq 0 (Z.to_nat 1000000)))%list.
Proof.
  destruct (run_trace_on_cube 4 TIMESTEP TOTAL_TIMESTEPS junk_p junk_v junk_a
              draws tbuf) as [snap Hs].
  exists snap. unfold TOTAL_TIMESTEPS in Hs. rewrite ceil_IZR in Hs.
  exact Hs.
Qed.

(** ** Properties of the configuration errors *)

Lemma noncube_test (n : nat) :
  ~ perfect_cube n -> Reqb (fmod1 (cbrt (INR n))) 0 = false.
Proof.
  intros Hc. apply not_true_is_false. intros H. apply Hc.
  apply wrong_size_test. exact H.
Qed.

(** C6, as the code has it. For a particle count that is not a cube and a
    number of steps within the range of the [int] counter, nothing is
    aborted.  [init_grid] prints the line "Error: Wrong size of particles."
    and still fills every column, with the lattice of side [(int)po].
    [simulate] prints the same line, after making the directory when it
    serializes, computes the initial accelerations, and still runs every
    turn of the integrator: each turn [ts < tts] updates the positions, the
    accelerations and the velocities from those of the turn before, and
    writes its snapshot when serialization is on; the result is that of
    the last turn, and the output holds the snapshots of all the turns
    after the line. *)
Theorem noncube_count_warns_and_continues (mp mv ma : MatrixXd) (td tts : R)
    (serialize : bool) (tbuf : string) :
  ~ perfect_cube (length mp) ->
  tts <= INT_MAX ->
  let po := cbrt (INR (length mp)) in
  let path := ("mds-" ++ tbuf ++ "/")%string in
  let run := fun n : nat => simulate mp mv ma td (INR n) serialize tbuf in
  init_grid mp =
    ([EPrint wrong_size],
     map (lattice_point (trunc po)) (seq 0 (length mp))) /\
  run 0%nat =
    mkSystem mp mv (calc_accel mp ma)
      ((if serialize then [EMkdir path] else []) ++ [EPrint wrong_size]) /\
  (length ma = length mp ->
   forall i, (i < length mp)%nat ->
     col (sys_ma (run 0%nat)) i =
     rowwise_sum (map (pair_force (col mp i)) (skipn (S i) mp))) /\
  (forall ts, INR ts < tts ->
     sys_mp (run (S ts)) =
       madd (madd (sys_mp (run ts)) (mscale td (sys_mv (run ts))))
            (mscale (td ^ 2) (mscale (1 / 2) (sys_ma (run ts)))) /\
     sys_ma (run (S ts)) =
       madd (calc_accel (sys_mp (run (S ts))) (sys_ma (run ts)))
            (sys_ma (run ts)) /\
     sys_mv (run (S ts)) =
       snd (border_handling (sys_mp (run (S ts)))
              (madd (sys_mv (run ts))
                 (mscale td (mscale (1 / 2) (sys_ma (run (S ts))))))
              true 0 po 0 po 0 po) /\
     sys_out (run (S ts)) =
       (sys_out (run ts) ++
        if serialize then [EWrite path ts (sys_mp (run (S ts)))] else [])%list)
  /\
  simulate mp mv ma td tts serialize tbuf = run (Z.to_nat (ceil tts)) /\
  (forall ts, (ts < Z.to_nat (ceil tts))%nat <-> INR ts < tts) /\
  sys_out (simulate mp mv ma td tts serialize tbuf) =
    ((if serialize then [EMkdir path] else []) ++
     EPrint wrong_size ::
     (if serialize
      then map (fun ts => EWrite path ts (sys_mp (run (S ts))))
               (seq 0 (Z.to_nat (ceil tts)))
      else []))%list.
Proof.
  intros Hcube _ po path run.
  pose proof (noncube_test (length mp) Hcube) as Ht.
  assert (H0 : run 0%nat =
               mkSystem mp mv (calc_accel mp ma)
                 ((if serialize then [EMkdir path] else []) ++
                  [EPrint wrong_size])).
  { unfold run. change (INR 0) with 0. rewrite simulate_zero, Ht.
    reflexivity. }
  split; [|split; [exact H0|split; [|split; [|split; [|split]]]]].
  - rewrite (surjective_pairing (init_grid mp)).
    rewrite init_grid_prints, Ht, init_grid_closed. reflexivity.
  - intros Hlen i Hi. rewrite H0. cbn [sys_ma].
    destruct (calc_accel_cols mp ma) as [_ Hc]. rewrite Hc, Hlen.
    apply Nat.ltb_lt in Hi. rewrite Hi. reflexivity.
  - intros ts _.
    assert (Hs : run (S ts) =
                 verlet_step td po serialize
                   (if serialize then path else EmptyString) ts (run ts)).
    { unfold run. rewrite simulate_steps. destruct serialize; reflexivity. }
    destruct (verlet_step_ma td po serialize
                (if serialize then path else EmptyString) ts (run ts))
      as [Emp Ema].
    pose proof (verlet_step_mv td po serialize
                  (if serialize then path else EmptyString) ts (run ts))
      as Emv.
    pose proof (verlet_step_out_gen td po serialize
                  (if serialize then path else EmptyString) ts (run ts))
      as Eout.
    cbv zeta in Emp, Ema, Emv. rewrite <- Hs in Emp, Ema, Emv, Eout.
    split; [exact Emp|]. split; [exact Ema|]. split; [exact Emv|].
    rewrite Eout. destruct serialize; reflexivity.
  - apply simulate_ceil.
  - intros ts. apply loop_turns.
  - rewrite simulate_out_closed, simulate_zero, Ht. cbn [sys_out].
    rewrite <- app_assoc. reflexivity.
Qed.

Lemma noncube_count_warns_and_continues_witness :
  let mp := [mkVec 7 7 7; mkVec 7 7 7] in
  let run := fun n : nat =>
               simulate mp [vzero; vzero] [vzero; vzero] TIMESTEP (INR n) true
                 "t" in
  ~ perfect_cube (length mp) /\
  2 <= INT_MAX /\
  init_grid mp =
    ([EPrint wrong_size],
     map (lattice_point (trunc (cbrt (INR (length mp))))) (seq 0 (length mp)))
  /\
  sys_out (simulate mp [vzero; vzero] [vzero; vzero] TIMESTEP 2 true "t") =
    ([EMkdir "mds-t/"] ++
     EPrint wrong_size ::
     map (fun ts => EWrite "mds-t/" ts (sys_mp (run (S ts))))
         (seq 0 (Z.to_nat (ceil 2))))%list.
Proof.
  intros mp run.
  assert (Hc : ~ perfect_cube (length mp)) by exact not_perfect_cube_2.
  assert (Hb : 2 <= INT_MAX) by (unfold INT_MAX; lra).
  destruct (noncube_count_warns_and_continues
              mp [vzero; vzero] [vzero; vzero] TIMESTEP 2 true "t" Hc Hb)
    as [H1 [_ [_ [_ [_ [_ H7]]]]]].
  split; [exact Hc|]. split; [exact Hb|]. split; [exact H1 | exact H7].
Defined.

(** C6, the specification refuted: with two particles at rest at (0,0,0)
    and (1,0,0) and one step, [simulate] prints the complaint and then goes
    through the step and writes its snapshot, in which the first particle
    has moved: it warns and continues. *)
Lemma noncube_count_not_rejected :
  sys_out (simulate [mkVec 0 0 0; mkVec 1 0 0] [vzero; vzero]
             [vzero; vzero] TIMESTEP 1 true "t") =
  [EMkdir "mds-t/"; EPrint wrong_size;
   EWrite "mds-t/" 0
     [mkVec (12 * (2 / 10 ^ 7 - 1 / 10 ^ 13) / 10 ^ 12) 0 0; mkVec 1 0 0]].
Proof.
  set (mp := [mkVec 0 0 0; mkVec 1 0 0]).
  set (m0 := [vzero; vzero]).
  assert (Hm : sys_mp (simulate mp m0 m0 TIMESTEP (INR 1) true "t") =
               [mkVec (12 * (2 / 10 ^ 7 - 1 / 10 ^ 13) / 10 ^ 12) 0 0;
                mkVec 1 0 0]).
  { pose proof (simulate_steps mp m0 m0 TIMESTEP 0 true "t") as Hs.
    change (INR 0) with 0 in Hs. rewrite Hs.
    destruct (verlet_step_ma TIMESTEP (cbrt (INR (length mp))) true
                (snd (init_serialize "t")) 0
                (simulate mp m0 m0 TIMESTEP 0 true "t")) as [Emp _].
    cbv zeta in Emp. rewrite Emp, simulate_zero.
    cbn [sys_mp sys_mv sys_ma].
    unfold mp, m0. rewrite calc_accel_two, vadd_zero_l.
    rewrite pair_force_on_x_axis by lra. rewrite code_force_factor_1.
    unfold mscale, TIMESTEP. simpl.
    unfold vadd, vscale, vzero; simpl.
    f_equal; [|f_equal]; f_equal; field. }
  rewrite simulate_out_closed, simulate_zero.
  rewrite (noncube_test (length mp) not_perfect_cube_2).
  replace (ceil 1) with 1%Z by (symmetry; exact (ceil_INR 1)).
  change (Z.to_nat 1) with 1%nat.
  cbn [sys_out app seq map]. rewrite Hm. reflexivity.
Qed.
